(** * log_monitor: the streaming byte pipeline

    A shallow embedding of [src/keyword_matcher.cpp] and
    [src/log_monitor.cpp]: the keyword matcher, the per-line step
    ([LogMonitor::processLine]), the line reconstructor
    ([LogMonitor::processBuffer]) and the read loop of
    [LogMonitor::start].

    Conventions.
    - A [std::string], a [std::string_view] and the read buffer are
      [list byte]; a [size_t] that is the size of such an object is the
      [nat] length of the list.
    - The four [uint64_t] counters of [Statistics] are [Z] with the
      wrap-around modulo [2^64] written out ([incr64], [add64]).
    - The output stream is the list of bytes written to it since
      construction ([flush] does not change that list).
    - The input stream is a record of the [std::ifstream] state the loop
      looks at; what the file system returns is an event of the run. *)

From Stdlib Require Import List ZArith Bool Arith Lia.
From Stdlib Require Import Strings.Byte Strings.String.
Import ListNotations.

(** [length] is the length of a list throughout. *)
Abbreviation length := Datatypes.length (only parsing).

(** ** Bytes *)

Definition bytes := list byte.

(** The line terminator ['\n'] (0x0A). *)
Definition NL : byte := x0a.

Definition bytes_of (s : string) : bytes := list_byte_of_string s.

(** ** KeywordMatcher (src/keyword_matcher.cpp) *)

Module KeywordMatcher.

(** Does [text] start with [kw]?  The comparison [std::string_view::find]
    performs at one candidate position. *)
Fixpoint starts_with (kw text : bytes) : bool :=
  match kw, text with
  | [], _ => true
  | _ :: _, [] => false
  | k :: kw', t :: text' => Byte.eqb k t && starts_with kw' text'
  end.

(** [find_from text kw pos]: [text] is the suffix of the searched view
    that starts at offset [pos]; the result is the lowest offset at
    which [kw] occurs, [None] standing for [std::string_view::npos]. *)
Fixpoint find_from (text kw : bytes) (pos : nat) : option nat :=
  if starts_with kw text then Some pos
  else match text with
       | [] => None
       | _ :: text' => find_from text' kw (S pos)
       end.

(** [text.find(keyword)] *)
Definition find (text kw : bytes) : option nat := find_from text kw 0.

Definition is_npos (r : option nat) : bool :=
  match r with None => true | Some _ => false end.

(** [KeywordMatcher::matches]: the loop over [keywords_] with its early
    return. *)
Fixpoint matches (keywords_ : list bytes) (text : bytes) : bool :=
  match keywords_ with
  | [] => false
  | keyword :: rest =>
      if negb (is_npos (find text keyword)) then true
      else matches rest text
  end.

(** [kw] occurs in [text] as a contiguous byte subsequence. *)
Definition occurs_in (kw text : bytes) : Prop :=
  exists pre post, text = pre ++ kw ++ post.

End KeywordMatcher.

Import KeywordMatcher.

(** ** Statistics and configuration (include/log_monitor.h) *)

(** [uint64_t] arithmetic: [x++] and [x += n]. *)
Definition incr64 (x : Z) : Z := ((x + 1) mod 2 ^ 64)%Z.
Definition add64 (x : Z) (n : nat) : Z := ((x + Z.of_nat n) mod 2 ^ 64)%Z.

Record Statistics := mkStatistics {
  linesProcessed : Z;
  linesMatched : Z;
  bytesRead : Z;
  longLinesDiscarded : Z
}.

Definition DEFAULT_BUFFER_SIZE : nat := 64 * 1024.

(** [static constexpr size_t MAX_LINE_LENGTH = 5000], written through [Z]
    to keep the numeral binary. *)
Definition MAX_LINE_LENGTH : nat := Z.to_nat 5000.

Record Config := mkConfig {
  inputFile : string;
  outputFile : string;
  keywords : list bytes;
  bufferSize : nat;
  pollIntervalMs : Z
}.

(** ** The input stream

    The part of [std::ifstream] that [LogMonitor::start] observes: whether
    a file is open, the three state bits, and the get position of the
    file buffer.  The member functions below follow the C++ standard
    ([istream.unformatted], [ifstream.members]). *)

Record ifstream := mkIfstream {
  is_open : bool;
  eofbit : bool;
  failbit : bool;
  badbit : bool;
  gpos : Z
}.

Definition good (s : ifstream) : bool :=
  negb (eofbit s || failbit s || badbit s).

Definition eof (s : ifstream) : bool := eofbit s.

Definition fail (s : ifstream) : bool := failbit s || badbit s.

(** [clear()]: all state bits reset. *)
Definition clear (s : ifstream) : ifstream :=
  mkIfstream (is_open s) false false false (gpos s).

(** [close()]: afterwards [is_open()] is false; the state bits stay. *)
Definition close (s : ifstream) : ifstream :=
  mkIfstream false (eofbit s) (failbit s) (badbit s) (gpos s).

(** [open(path, binary)]: on success the file is open at offset 0 and
    [clear()] is called; on failure [failbit] is set. *)
Definition open (s : ifstream) (ok : bool) : ifstream :=
  if ok then mkIfstream true false false false 0
  else mkIfstream (is_open s) (eofbit s) true (badbit s) (gpos s).

(** [seekg(pos)]: clears [eofbit]; when the stream is not failing, moves
    the get position to [pos]; an invalid position sets [failbit]. *)
Definition seekg (s : ifstream) (pos : Z) : ifstream :=
  let s1 := mkIfstream (is_open s) false (failbit s) (badbit s) (gpos s) in
  if fail s1 then mkIfstream (is_open s1) false true (badbit s1) (gpos s1)
  else if (pos <? 0)%Z
       then mkIfstream (is_open s1) false true (badbit s1) (gpos s1)
       else mkIfstream (is_open s1) false false (badbit s1) pos.

(** [tellg()]: the sentry sets [failbit] on a stream that is not good; when
    [fail()] holds the result is [pos_type(-1)], otherwise the get
    position. *)
Definition tellg (s : ifstream) : Z * ifstream :=
  if good s then (gpos s, s)
  else ((-1)%Z, mkIfstream (is_open s) (eofbit s) true (badbit s) (gpos s)).

(** What one [read(buffer, bufferSize)] on a good stream can come back
    with.  [gcount()] is the length of [data]. *)
Inductive ReadResult :=
| ReadFull (data : bytes)   (** the whole count was stored; the stream stays good *)
| ReadEof (data : bytes)    (** end of file came first: [setstate(failbit | eofbit)] *)
| ReadBad (data : bytes).   (** the stream buffer failed: [badbit] *)

Definition read_data (r : ReadResult) : bytes :=
  match r with ReadFull d | ReadEof d | ReadBad d => d end.

Definition read (s : ifstream) (r : ReadResult) : ifstream :=
  let pos := (gpos s + Z.of_nat (length (read_data r)))%Z in
  match r with
  | ReadFull _ => mkIfstream (is_open s) (eofbit s) (failbit s) (badbit s) pos
  | ReadEof _ => mkIfstream (is_open s) true true (badbit s) pos
  | ReadBad _ => mkIfstream (is_open s) (eofbit s) (failbit s) true pos
  end.

(** A read result the library can produce for a request of [n] bytes. *)
Definition read_wf (n : nat) (r : ReadResult) : bool :=
  match r with
  | ReadFull d => length d =? n
  | ReadEof d => length d <? n
  | ReadBad d => length d <=? n
  end.

(** ** LogMonitor (src/log_monitor.cpp)

    The object state.  [matcher_] holds [config_.keywords]; [buffer_] is
    the argument of [processBuffer]. *)

Record LogMonitor := mkLogMonitor {
  config_ : Config;
  inStream_ : ifstream;
  outStream_ : bytes;
  lastPosition_ : Z;
  partialLine_ : bytes;
  running_ : bool;
  stats_ : Statistics
}.

Definition with_inStream (m : LogMonitor) (s : ifstream) : LogMonitor :=
  mkLogMonitor (config_ m) s (outStream_ m) (lastPosition_ m)
               (partialLine_ m) (running_ m) (stats_ m).

Definition with_outStream (m : LogMonitor) (o : bytes) : LogMonitor :=
  mkLogMonitor (config_ m) (inStream_ m) o (lastPosition_ m)
               (partialLine_ m) (running_ m) (stats_ m).

Definition with_lastPosition (m : LogMonitor) (p : Z) : LogMonitor :=
  mkLogMonitor (config_ m) (inStream_ m) (outStream_ m) p
               (partialLine_ m) (running_ m) (stats_ m).

Definition with_partialLine (m : LogMonitor) (l : bytes) : LogMonitor :=
  mkLogMonitor (config_ m) (inStream_ m) (outStream_ m) (lastPosition_ m)
               l (running_ m) (stats_ m).

Definition with_running (m : LogMonitor) (b : bool) : LogMonitor :=
  mkLogMonitor (config_ m) (inStream_ m) (outStream_ m) (lastPosition_ m)
               (partialLine_ m) b (stats_ m).

Definition with_stats (m : LogMonitor) (st : Statistics) : LogMonitor :=
  mkLogMonitor (config_ m) (inStream_ m) (outStream_ m) (lastPosition_ m)
               (partialLine_ m) (running_ m) st.

Definition incr_linesProcessed (st : Statistics) : Statistics :=
  mkStatistics (incr64 (linesProcessed st)) (linesMatched st)
               (bytesRead st) (longLinesDiscarded st).

Definition incr_linesMatched (st : Statistics) : Statistics :=
  mkStatistics (linesProcessed st) (incr64 (linesMatched st))
               (bytesRead st) (longLinesDiscarded st).

Definition add_bytesRead (st : Statistics) (n : nat) : Statistics :=
  mkStatistics (linesProcessed st) (linesMatched st)
               (add64 (bytesRead st) n) (longLinesDiscarded st).

Definition incr_longLinesDiscarded (st : Statistics) : Statistics :=
  mkStatistics (linesProcessed st) (linesMatched st)
               (bytesRead st) (incr64 (longLinesDiscarded st)).

(** The constructor, once the output file is open: nothing written yet,
    the input closed, counters zero. *)
Definition construct (config : Config) : LogMonitor :=
  mkLogMonitor config (mkIfstream false false false false 0) [] 0 [] false
               (mkStatistics 0 0 0 0).

Definition is_empty (l : bytes) : bool :=
  match l with [] => true | _ :: _ => false end.

(** [LogMonitor::processLine] *)
Definition processLine (m : LogMonitor) (line : bytes) : LogMonitor :=
  if is_empty line then m
  else
    let m1 := with_stats m (incr_linesProcessed (stats_ m)) in
    let too_long := MAX_LINE_LENGTH <? length line in
    let processedLine :=
      if too_long then firstn MAX_LINE_LENGTH line else line in
    let m2 :=
      if too_long
      then with_stats m1 (incr_longLinesDiscarded (stats_ m1))
      else m1 in
    if matches (keywords (config_ m2)) processedLine then
      let m3 := with_stats m2 (incr_linesMatched (stats_ m2)) in
      with_outStream m3 (outStream_ m3 ++ processedLine ++ [NL])
    else m2.

(** The [len] bytes at [buffer + start]. *)
Definition substr (buffer : bytes) (start len : nat) : bytes :=
  firstn len (skipn start buffer).

(** What the body of the newline branch does with the segment
    [buffer + start, segmentLen). *)
Definition completeLine (m : LogMonitor) (segment : bytes) : LogMonitor :=
  if negb (is_empty (partialLine_ m)) then
    let m1 := with_partialLine m (partialLine_ m ++ segment) in
    let m2 := processLine m1 (partialLine_ m1) in
    with_partialLine m2 []
  else processLine m segment.

(** One iteration of the [for] loop of [processBuffer]; the loop state is
    the object and the local [start]. *)
Definition scanStep (buffer : bytes) (acc : LogMonitor * nat) (i : nat)
  : LogMonitor * nat :=
  let '(m, start) := acc in
  if Byte.eqb (nth i buffer x00) NL then
    let segmentLen := i - start in
    (completeLine m (substr buffer start segmentLen), i + 1)
  else (m, start).

(** [LogMonitor::processBuffer]; [bytesRead] is [length buffer].  In the
    overflow branch the count [MAX_LINE_LENGTH - partialLine_.length()] is
    a [size_t] difference: it does not wrap as long as the carry is
    shorter than [MAX_LINE_LENGTH], which every call maintains. *)
Definition processBuffer (m : LogMonitor) (buffer : bytes) : LogMonitor :=
  let bytesRead := length buffer in
  let m0 := with_stats m (add_bytesRead (stats_ m) bytesRead) in
  let '(m1, start) := fold_left (scanStep buffer) (seq 0 bytesRead) (m0, 0) in
  if start <? bytesRead then
    let remainingLen := bytesRead - start in
    if MAX_LINE_LENGTH <=? length (partialLine_ m1) + remainingLen then
      let m2 :=
        with_partialLine m1
          (partialLine_ m1 ++
           substr buffer start (MAX_LINE_LENGTH - length (partialLine_ m1))) in
      let m3 := processLine m2 (partialLine_ m2) in
      let m4 := with_partialLine m3 [] in
      with_stats m4 (incr_longLinesDiscarded (stats_ m4))
    else
      with_partialLine m1 (partialLine_ m1 ++ substr buffer start remainingLen)
  else m1.

(** The buffers of successive reads, fed in arrival order. *)
Definition processChunks (m : LogMonitor) (chunks : list bytes) : LogMonitor :=
  fold_left processBuffer chunks m.

(** ** The loop of [LogMonitor::start]

    The loop is a machine over the object state and a control point; the
    results of [open] and [read] and a concurrent [stop()] are the events
    of a run.  The sleeps change no state and are not recorded. *)

Inductive Control :=
| AtOuter                    (** at the test of [while (running_)] *)
| AtInner (dataRead : bool)  (** at the test of [while (inStream_.good())] *)
| Returned.                  (** [start()] has returned *)

Inductive Event :=
| EvOpen (ok : bool)         (** the outcome of [inStream_.open] *)
| EvRead (r : ReadResult)    (** the outcome of [inStream_.read] *)
| EvStop                     (** [stop()] from another thread or a signal handler *)
| EvTau.                     (** a step that takes nothing from outside *)

(** [LogMonitor::stop] *)
Definition stop (m : LogMonitor) : LogMonitor := with_running m false.

(** Entry of [start()]: [running_ = true], then the loop test. *)
Definition start (m : LogMonitor) : Control * LogMonitor :=
  (AtOuter, with_running m true).

(** The body of the inner [while], from the [read] to the end of the
    iteration. *)
Definition readBody (m : LogMonitor) (dataRead : bool) (r : ReadResult)
  : Control * LogMonitor :=
  let m1 := with_inStream m (read (inStream_ m) r) in
  let bytesRead := length (read_data r) in
  let '(m2, dataRead2) :=
    if 0 <? bytesRead then
      let mb := processBuffer m1 (read_data r) in
      let '(pos, s) := tellg (inStream_ mb) in
      (with_lastPosition (with_inStream mb s) pos, true)
    else (m1, dataRead) in
  if eof (inStream_ m2) then
    (AtOuter, with_inStream m2 (clear (inStream_ m2)))
  else if fail (inStream_ m2) && negb (eof (inStream_ m2)) then
    let m3 := with_inStream m2 (close (inStream_ m2)) in
    let m4 := with_lastPosition m3 0 in
    (AtOuter, with_partialLine m4 [])
  else (AtInner dataRead2, m2).

Definition step (c : Control * LogMonitor) (e : Event)
  : option (Control * LogMonitor) :=
  let '(ctl, m) := c in
  match ctl, e with
  | Returned, _ => None
  | _, EvStop => Some (ctl, stop m)
  | AtOuter, EvTau =>
      if running_ m then
        if is_open (inStream_ m) then Some (AtInner false, m) else None
      else Some (Returned, m)
  | AtOuter, EvOpen ok =>
      if running_ m && negb (is_open (inStream_ m)) then
        let m1 := with_inStream m (open (inStream_ m) ok) in
        if is_open (inStream_ m1) then
          Some (AtInner false,
                with_inStream m1 (seekg (inStream_ m1) (lastPosition_ m1)))
        else Some (AtOuter, m1)
      else None
  | AtInner dataRead, EvTau =>
      if good (inStream_ m) then None else Some (AtOuter, m)
  | AtInner dataRead, EvRead r =>
      if good (inStream_ m) then Some (readBody m dataRead r) else None
  | _, _ => None
  end.

Fixpoint run (c : Control * LogMonitor) (es : list Event)
  : option (Control * LogMonitor) :=
  match es with
  | [] => Some c
  | e :: es' =>
      match step c e with
      | Some c' => run c' es'
      | None => None
      end
  end.

(** The reads the loop gets from a file that holds [content] and does not
    change: whole buffers of [n] bytes while that many are left, then one
    short read that reaches end of file.  [fuel] bounds the number of
    reads. *)
Fixpoint file_reads (fuel n : nat) (content : bytes) : list Event :=
  match fuel with
  | 0 => []
  | S fuel' =>
      if n <=? length content
      then EvRead (ReadFull (firstn n content))
             :: file_reads fuel' n (skipn n content)
      else [EvRead (ReadEof content)]
  end.

(** [start()] on an object whose input file holds [content]: the open,
    then the reads up to the first end of file.  The result is the object
    state when the loop goes to sleep. *)
Definition tail_file (m : LogMonitor) (content : bytes) : option LogMonitor :=
  option_map snd
    (run (start m)
       (EvOpen true
          :: file_reads (S (length content)) (bufferSize (config_ m)) content)).

(** ** The reconstructor as a function on byte lists

    [split_NL buf] cuts [buf] at every terminator: the segments that end
    at a terminator, in order, and the bytes after the last one. *)

Fixpoint split_NL (buf : bytes) : list bytes * bytes :=
  match buf with
  | [] => ([], [])
  | c :: rest =>
      let '(segs, tail) := split_NL rest in
      if Byte.eqb c NL then ([] :: segs, tail)
      else match segs with
           | [] => ([], c :: tail)
           | s :: segs' => ((c :: s) :: segs', tail)
           end
  end.

(** The lines one call of [processBuffer] hands to [processLine], in
    order, and the carry it leaves, for the carry [carry] it starts
    from. *)
Definition reconstruct (carry buf : bytes) : list bytes * bytes :=
  let '(segs, tail) := split_NL buf in
  let lines :=
    match segs with [] => [] | s :: segs' => (carry ++ s) :: segs' end in
  let carry1 := match segs with [] => carry | _ :: _ => [] end in
  match tail with
  | [] => (lines, carry1)
  | _ :: _ =>
      if MAX_LINE_LENGTH <=? length carry1 + length tail
      then (lines ++
              [carry1 ++ firstn (MAX_LINE_LENGTH - length carry1) tail], [])
      else (lines, carry1 ++ tail)
  end.

(** The lines handed to [processLine] over a sequence of buffers. *)
Fixpoint emitted (carry : bytes) (chunks : list bytes) : list bytes :=
  match chunks with
  | [] => []
  | buf :: chunks' =>
      let '(lines, carry') := reconstruct carry buf in
      lines ++ emitted carry' chunks'
  end.

(** A line that [processLine] writes: not empty, and its first
    [MAX_LINE_LENGTH] bytes contain a keyword. *)
Definition is_matched (kws : list bytes) (line : bytes) : bool :=
  negb (is_empty line) && matches kws (firstn MAX_LINE_LENGTH line).

Definition matched_lines (kws : list bytes) (lines : list bytes)
  : list bytes :=
  filter (is_matched kws) lines.

(** The bytes one matched line contributes to the sink. *)
Definition written (line : bytes) : bytes :=
  firstn MAX_LINE_LENGTH line ++ [NL].

(** What [processLine] writes for one line. *)
Definition line_output (kws : list bytes) (line : bytes) : bytes :=
  if is_matched kws line then written line else [].

(** The lines the newline loop hands over for the segments [segs]. *)
Definition stitched (carry : bytes) (segs : list bytes) : list bytes :=
  match segs with
  | [] => []
  | s :: segs' => (carry ++ s) :: segs'
  end.

(** What [processBuffer] does after the loop with the bytes [tail] that
    follow the last terminator. *)
Definition finishBuffer (m1 : LogMonitor) (tail : bytes) : LogMonitor :=
  match tail with
  | [] => m1
  | _ :: _ =>
      if MAX_LINE_LENGTH <=? length (partialLine_ m1) + length tail then
        let m2 :=
          with_partialLine m1
            (partialLine_ m1 ++
             firstn (MAX_LINE_LENGTH - length (partialLine_ m1)) tail) in
        let m3 := processLine m2 (partialLine_ m2) in
        let m4 := with_partialLine m3 [] in
        with_stats m4 (incr_longLinesDiscarded (stats_ m4))
      else with_partialLine m1 (partialLine_ m1 ++ tail)
  end.

(** [processLine] over a sequence of lines. *)
Definition processLines (m : LogMonitor) (lines : list bytes) : LogMonitor :=
  fold_left processLine lines m.

(** [stats_.bytesRead += n] *)
Definition add_bytes (m : LogMonitor) (n : nat) : LogMonitor :=
  with_stats m (add_bytesRead (stats_ m) n).

(** [stats_.longLinesDiscarded++] *)
Definition count_discarded (m : LogMonitor) : LogMonitor :=
  with_stats m (incr_longLinesDiscarded (stats_ m)).

(** Does a call of [processBuffer] that starts from [carry] take the
    overflow branch? *)
Definition overflows (carry buf : bytes) : bool :=
  let '(segs, tail) := split_NL buf in
  let carry1 := match segs with [] => carry | _ :: _ => [] end in
  negb (is_empty tail) && (MAX_LINE_LENGTH <=? length carry1 + length tail).

(** No buffer of the sequence takes the overflow branch. *)
Fixpoint no_overflow (carry : bytes) (chunks : list bytes) : bool :=
  match chunks with
  | [] => true
  | buf :: chunks' =>
      negb (overflows carry buf)
      && no_overflow (snd (reconstruct carry buf)) chunks'
  end.

(** The pieces of [reconstruct]: the carry after the newline loop, the
    overflow test on the rest of the buffer, and the last branch. *)
Definition carry_after (carry : bytes) (segs : list bytes) : bytes :=
  match segs with [] => carry | _ :: _ => [] end.

Definition tail_overflows (carry1 tail : bytes) : bool :=
  negb (is_empty tail) && (MAX_LINE_LENGTH <=? length carry1 + length tail).

Definition finish_tail (lines : list bytes) (carry1 tail : bytes)
  : list bytes * bytes :=
  if tail_overflows carry1 tail
  then (lines ++ [carry1 ++ firstn (MAX_LINE_LENGTH - length carry1) tail], [])
  else (lines, carry1 ++ tail).

(** The newline-delimited records of an input: every segment that ends
    at a terminator, and the unterminated rest. *)
Definition records (input : bytes) : list bytes :=
  let '(segs, tail) := split_NL input in segs ++ [tail].

(** An input made of complete records. *)
Definition join_NL (recs : list bytes) : bytes :=
  flat_map (fun r => r ++ [NL]) recs.

(** Does [l] contain a terminator? *)
Definition has_NL (l : bytes) : bool :=
  existsb (fun c => Byte.eqb c NL) l.

Definition is_prefix (p l : bytes) : bool := starts_with p l.

(** ** Concrete monitors and inputs *)

(** A monitor as the tests construct it: keyword [key1], a chosen buffer
    size, poll interval 10 ms. *)
Definition monitor_key1 (bufferSize : nat) : LogMonitor :=
  construct (mkConfig "test_in.log" "test_out.log" [bytes_of "key1"]
               bufferSize 10).

(** [MAX_LINE_LENGTH] bytes without a keyword and without a terminator. *)
Definition filler : bytes := repeat "a"%byte MAX_LINE_LENGTH.

Definition key1_line : bytes := bytes_of "key1" ++ [NL].

(** A line of exactly [MAX_LINE_LENGTH] bytes that contains [key1]. *)
Definition exact_line : bytes :=
  bytes_of "key1" ++ repeat "X"%byte (MAX_LINE_LENGTH - 4).

(** The input of the test [TruncatesLongLines],
    ["key1 " + std::string(10000, 'X') + "\n"], cut where reads of 5000
    bytes cut it. *)
Definition long_part1 : bytes :=
  bytes_of "key1 " ++ repeat "X"%byte (MAX_LINE_LENGTH - 5).
Definition long_part2 : bytes := repeat "X"%byte MAX_LINE_LENGTH.
Definition long_part3 : bytes := repeat "X"%byte 5 ++ [NL].
Definition long_input : bytes := long_part1 ++ long_part2 ++ long_part3.

(** The three scenarios of the tests and of the specification that need
    no clock. *)
Definition scenario_input : bytes :=
  join_NL [bytes_of "alpha key1 beta"; bytes_of "no match here";
           bytes_of "key2 at start"].

Definition monitor_key12 (bufferSize : nat) : LogMonitor :=
  construct (mkConfig "test_in.log" "test_out.log"
               [bytes_of "key1"; bytes_of "key2"] bufferSize 10).

(** ** The command line (src/main.cpp) *)

(** [std::isspace] in the default locale: space, and the five control
    characters from tab to carriage return. *)
Definition isspace (c : byte) : bool :=
  match c with
  | x20 | x09 | x0a | x0b | x0c | x0d => true
  | _ => false
  end.

(** [ss >> keyword] first skips leading whitespace ... *)
Fixpoint skip_ws (s : bytes) : bytes :=
  match s with
  | [] => []
  | c :: s' => if isspace c then skip_ws s' else s
  end.

(** ... and then extracts characters up to the next whitespace or the end
    of the stream: the word, and what is left in the stream. *)
Fixpoint read_word (s : bytes) : bytes * bytes :=
  match s with
  | [] => ([], [])
  | c :: s' =>
      if isspace c then ([], s)
      else let '(w, rest) := read_word s' in (c :: w, rest)
  end.

(** [if (!keyword.empty() && keyword.back() == ',') keyword.pop_back();] *)
Definition pop_trailing_comma (keyword : bytes) : bytes :=
  if negb (is_empty keyword) && Byte.eqb (last keyword x00) ","%byte
  then removelast keyword
  else keyword.

(** The loop [while (ss >> keyword)] of [getKeywordsFromUser]; an
    extraction that finds no character fails and ends it.  [fuel] bounds
    the number of extractions. *)
Fixpoint readKeywords (fuel : nat) (ss : bytes) (keywords : list bytes)
  : list bytes :=
  match fuel with
  | 0 => keywords
  | S fuel' =>
      let '(keyword, rest) := read_word (skip_ws ss) in
      if is_empty keyword then keywords
      else
        let keyword1 := pop_trailing_comma keyword in
        readKeywords fuel' rest
          (if negb (is_empty keyword1) then keywords ++ [keyword1]
           else keywords)
  end.

(** [getKeywordsFromUser], for the line [input] that [std::getline] read
    from standard input. *)
Definition getKeywordsFromUser (input : bytes) : list bytes :=
  let keywords := readKeywords (S (length input)) input [] in
  match keywords with
  | [] => [bytes_of "key1"; bytes_of "key2"]
  | _ :: _ => keywords
  end.

(** The configuration [main] builds from [argv] (the program name
    included) and, when no keyword is given as an argument, from the line
    typed at the prompt. *)
Definition mainConfig (argv : list string) (input : bytes) : Config :=
  let argc := length argv in
  mkConfig
    (if 1 <? argc then nth 1 argv "a.log"%string else "a.log"%string)
    (if 2 <? argc then nth 2 argv "b.log"%string else "b.log"%string)
    (if 3 <? argc then map bytes_of (skipn 3 argv)
     else getKeywordsFromUser input)
    DEFAULT_BUFFER_SIZE 10.

(** A keyword as one types it: not empty, without whitespace. *)
Definition is_word (k : bytes) : bool :=
  negb (is_empty k) && negb (existsb isspace k).

(** A word that does not end in a comma. *)
Definition is_plain_word (k : bytes) : bool :=
  is_word k && negb (Byte.eqb (last k x00) ","%byte).

(** The line one types for the keywords [ks], with [sep] between them. *)
Fixpoint typed_line (sep : bytes) (ks : list bytes) : bytes :=
  match ks with
  | [] => []
  | [k] => k
  | k :: ks' => k ++ sep ++ typed_line sep ks'
  end.

(** ** Predicates on the object state *)

(** Two objects agree on what decides the sink: configuration, bytes
    written and carry. *)
Definition agree (m1 m2 : LogMonitor) : Prop :=
  config_ m1 = config_ m2 /\
  outStream_ m1 = outStream_ m2 /\
  partialLine_ m1 = partialLine_ m2.

(** Every counter holds a [uint64_t] value. *)
Definition stats_in_range (st : Statistics) : Prop :=
  (0 <= linesProcessed st < 2 ^ 64)%Z /\
  (0 <= linesMatched st < 2 ^ 64)%Z /\
  (0 <= bytesRead st < 2 ^ 64)%Z /\
  (0 <= longLinesDiscarded st < 2 ^ 64)%Z.

(** The order the counters keep while [total] bytes have been read. *)
Definition counters_ordered (total : Z) (st : Statistics) : Prop :=
  bytesRead st = total /\
  (0 <= linesMatched st <= linesProcessed st)%Z /\
  (0 <= longLinesDiscarded st <= linesProcessed st)%Z /\
  (linesProcessed st <= total)%Z.

(** The records that [processLine] writes when they are shorter than the
    cap: not empty, with a keyword. *)
Definition selected (kws : list bytes) (recs : list bytes) : list bytes :=
  filter (fun r => negb (is_empty r) && matches kws r) recs.

(** The data of a sequence of reads that ends at end of file. *)
Definition reads_to_eof (fulls : list bytes) (last : bytes) : list Event :=
  map (fun d => EvRead (ReadFull d)) fulls ++ [EvRead (ReadEof last)].

(** Where the loop stands with respect to the input: a closed input goes
    with position zero, and the inner loop runs on an open input. *)
Definition reopens_at_zero (c : Control * LogMonitor) : Prop :=
  (is_open (inStream_ (snd c)) = false -> lastPosition_ (snd c) = 0%Z)
  /\ (forall d, fst c = AtInner d -> is_open (inStream_ (snd c)) = true).

(** How many of the lines are not empty, and how many are longer than the
    cap. *)
Definition count_nonempty (lines : list bytes) : nat :=
  length (filter (fun l => negb (is_empty l)) lines).

Definition count_long (lines : list bytes) : nat :=
  length (filter (fun l => MAX_LINE_LENGTH <? length l) lines).

(** ** The log generator (src/log_generator.cpp)

    [HFTLogGenerator::generateLongLog]: the line it builds, for the text
    [timestamp] that [generateTimestamp] returned, and the bytes it
    appends to the log file ([std::endl] writes the terminator). *)
Definition longLogLine (timestamp : bytes) : bytes :=
  bytes_of "[" ++ timestamp ++ bytes_of "] key1 MARKET_DATA_SNAPSHOT "
  ++ repeat "X"%byte (Z.to_nat 15000).

Definition generateLongLog (timestamp : bytes) : bytes :=
  longLogLine timestamp ++ [NL].

(** ** The byte count of the sink, from the records of the input

    The number of bytes the sink is to hold for [input]: for every matched
    record of the input, in order, its length or [MAX_LINE_LENGTH],
    whichever is smaller, and one more for the terminator.  A record is
    matched when it is not empty and its first [MAX_LINE_LENGTH] bytes
    contain a keyword, as [processLine] decides it ... *)
Definition record_bytes (r : bytes) : nat :=
  Nat.min (length r) MAX_LINE_LENGTH + 1.

Definition expected_sink_bytes (kws : list bytes) (input : bytes) : Z :=
  Z.of_nat (list_sum (map record_bytes (matched_lines kws (records input)))).

(** ... or when the whole record contains a keyword. *)
Definition expected_sink_bytes_raw (kws : list bytes) (input : bytes) : Z :=
  Z.of_nat
    (list_sum (map record_bytes (filter (matches kws) (records input)))).

(** The size of the sink after a run over a file. *)
Definition sink_size (m : option LogMonitor) : option Z :=
  option_map (fun m' => Z.of_nat (length (outStream_ m'))) m.

(** ** Facts about the matcher *)

Section MatcherFacts.

Lemma starts_with_spec (kw text : bytes) :
  starts_with kw text = true <-> exists post, text = kw ++ post.
Proof.
  revert text; induction kw as [|k kw IH]; intros text; simpl.
  - split; [intros _; now exists text | reflexivity].
  - destruct text as [|t text].
    + split; [discriminate | intros [post H]; discriminate].
    + rewrite andb_true_iff, IH. split.
      * intros [Hk [post ->]].
        apply Byte.byte_dec_bl in Hk. subst t. now exists post.
      * intros [post H]. injection H as -> ->. split.
        -- apply Byte.byte_dec_lb. reflexivity.
        -- now exists post.
Qed.

Lemma find_from_some (text kw : bytes) (pos : nat) :
  is_npos (find_from text kw pos) = false <-> occurs_in kw text.
Proof.
  revert pos; induction text as [|t text IH]; intros pos; simpl.
  - destruct (starts_with kw []) eqn:E; simpl.
    + split; [intros _ | reflexivity].
      apply starts_with_spec in E. destruct E as [post E].
      exists [], post. exact E.
    + split; [discriminate|].
      intros (pre & post & H). exfalso.
      destruct pre; [|discriminate].
      assert (starts_with kw [] = true) as E'
          by (apply starts_with_spec; now exists post).
      congruence.
  - destruct (starts_with kw (t :: text)) eqn:E; simpl.
    + split; [intros _ | reflexivity].
      apply starts_with_spec in E. destruct E as [post E].
      exists [], post. exact E.
    + rewrite IH. split.
      * intros (pre & post & ->). now exists (t :: pre), post.
      * intros (pre & post & H). destruct pre as [|p pre].
        -- exfalso.
           assert (starts_with kw (t :: text) = true) as E'
               by (apply starts_with_spec; now exists post).
           congruence.
        -- injection H as -> ->. now exists pre, post.
Qed.

Lemma matches_spec (kws : list bytes) (text : bytes) :
  matches kws text = true <->
  exists kw, In kw kws /\ occurs_in kw text.
Proof.
  induction kws as [|kw kws IH]; simpl.
  - split; [discriminate | intros (kw & [] & _)].
  - destruct (is_npos (find text kw)) eqn:E; simpl.
    + rewrite IH. split.
      * intros (k & Hin & Hocc). exists k. auto.
      * intros (k & [<- | Hin] & Hocc).
        -- apply (find_from_some text kw 0) in Hocc.
           unfold find in E. congruence.
        -- now exists k.
    + split; [intros _ | reflexivity].
      exists kw. split; [now left|].
      now apply (find_from_some text kw 0).
Qed.

Lemma occurs_in_nil_text (kw : bytes) : occurs_in kw [] -> kw = [].
Proof.
  intros (pre & post & H). symmetry in H.
  apply app_eq_nil in H as [_ H]. now apply app_eq_nil in H as [H _].
Qed.

Lemma occurs_in_nil_kw (text : bytes) : occurs_in [] text.
Proof. now exists [], text. Qed.

End MatcherFacts.

(** ** Facts about [processLine] *)

Lemma MAX_LINE_LENGTH_pos : 0 < MAX_LINE_LENGTH.
Proof. unfold MAX_LINE_LENGTH. lia. Qed.

Opaque MAX_LINE_LENGTH.

Section ProcessLineFacts.

Variable m : LogMonitor.
Variable line : bytes.

(** [processLine] touches the counters and the sink, nothing else. *)
Lemma processLine_frame :
  config_ (processLine m line) = config_ m /\
  inStream_ (processLine m line) = inStream_ m /\
  lastPosition_ (processLine m line) = lastPosition_ m /\
  partialLine_ (processLine m line) = partialLine_ m /\
  running_ (processLine m line) = running_ m.
Proof.
  unfold processLine.
  destruct (is_empty line); [now repeat split|].
  destruct (MAX_LINE_LENGTH <? length line); cbn [config_ with_stats];
    match goal with |- context [if ?c then _ else _] => destruct c end;
    now repeat split.
Qed.

Lemma processLine_out :
  outStream_ (processLine m line) =
  outStream_ m ++
    (if is_matched (keywords (config_ m)) line then written line else []).
Proof.
  unfold processLine, is_matched, written.
  destruct (is_empty line) eqn:El; cbn [negb andb].
  - now rewrite app_nil_r.
  - destruct (MAX_LINE_LENGTH <? length line) eqn:Elen;
      cbn [config_ with_stats].
    + destruct (matches _ _); cbn; [reflexivity | now rewrite app_nil_r].
    + apply Nat.ltb_ge in Elen. rewrite (firstn_all2 line Elen).
      destruct (matches _ _); cbn; [reflexivity | now rewrite app_nil_r].
Qed.

End ProcessLineFacts.

Lemma processLine_config (m : LogMonitor) (line : bytes) :
  config_ (processLine m line) = config_ m.
Proof. apply processLine_frame. Qed.

Lemma processLine_partialLine (m : LogMonitor) (line : bytes) :
  partialLine_ (processLine m line) = partialLine_ m.
Proof. apply processLine_frame. Qed.

(** ** Facts about the newline branch *)

Lemma flat_written_cons (kws : list bytes) (l : bytes) (ls : list bytes) :
  flat_map written (matched_lines kws (l :: ls)) =
  line_output kws l ++ flat_map written (matched_lines kws ls).
Proof.
  unfold matched_lines, line_output. cbn [filter].
  destruct (is_matched kws l); reflexivity.
Qed.

Lemma flat_written_app (kws : list bytes) (ls1 ls2 : list bytes) :
  flat_map written (matched_lines kws (ls1 ++ ls2)) =
  flat_map written (matched_lines kws ls1) ++
  flat_map written (matched_lines kws ls2).
Proof.
  unfold matched_lines. now rewrite filter_app, flat_map_app.
Qed.

Lemma completeLine_facts (m : LogMonitor) (seg : bytes) :
  config_ (completeLine m seg) = config_ m /\
  partialLine_ (completeLine m seg) = [] /\
  outStream_ (completeLine m seg) =
    outStream_ m ++ line_output (keywords (config_ m)) (partialLine_ m ++ seg).
Proof.
  unfold completeLine, line_output.
  destruct (partialLine_ m) as [|c carry] eqn:Ec; cbn [is_empty negb].
  - rewrite processLine_config, processLine_partialLine, processLine_out.
    now rewrite Ec.
  - cbn [with_partialLine config_ partialLine_ outStream_].
    rewrite processLine_config, processLine_out. now repeat split.
Qed.

Lemma fold_completeLine_facts (segs : list bytes) (m : LogMonitor) :
  let m' := fold_left completeLine segs m in
  config_ m' = config_ m /\
  partialLine_ m' = match segs with [] => partialLine_ m | _ :: _ => [] end /\
  outStream_ m' =
    outStream_ m ++
    flat_map written
      (matched_lines (keywords (config_ m)) (stitched (partialLine_ m) segs)).
Proof.
  revert m; induction segs as [|s segs IH]; intros m; cbn [fold_left stitched].
  - cbn. now rewrite app_nil_r.
  - destruct (IH (completeLine m s)) as (Hc & Hp & Ho).
    destruct (completeLine_facts m s) as (Hc1 & Hp1 & Ho1).
    cbv zeta. rewrite Hc, Ho, Hc1, Hp1, Ho1. repeat split.
    + rewrite Hp. now destruct segs.
    + rewrite flat_written_cons, <- app_assoc. f_equal. f_equal.
      destruct segs; reflexivity.
Qed.

(** ** The scanning loop against [split_NL] *)

Lemma split_NL_tail_length (buf : bytes) :
  length (snd (split_NL buf)) <= length buf.
Proof.
  induction buf as [|c rest IH]; cbn [split_NL]; [cbn; lia|].
  destruct (split_NL rest) as [segs tail]. cbn [snd] in IH.
  destruct (Byte.eqb c NL); [cbn; lia|].
  destruct segs; cbn; lia.
Qed.

Lemma split_NL_no_segment (buf tail : bytes) :
  split_NL buf = ([], tail) -> tail = buf.
Proof.
  revert tail; induction buf as [|c rest IH]; intros tail; cbn [split_NL].
  - now intros [= <-].
  - destruct (split_NL rest) as [segs t].
    destruct (Byte.eqb c NL); [discriminate|].
    destruct segs; [|discriminate].
    intros [= <-]. now rewrite (IH t eq_refl).
Qed.

(** The tail is the suffix of the buffer after the last terminator. *)
Lemma split_NL_tail_suffix (buf : bytes) :
  skipn (length buf - length (snd (split_NL buf))) buf = snd (split_NL buf).
Proof.
  induction buf as [|c rest IH]; cbn [split_NL]; [reflexivity|].
  pose proof (split_NL_tail_length rest) as Hlen.
  destruct (split_NL rest) as [segs tail] eqn:E. cbn [snd] in *.
  assert (Hs : forall t, t = tail ->
             skipn (length (c :: rest) - length t) (c :: rest) = t).
  { intros t ->. cbn [Datatypes.length].
    replace (S (length rest) - length tail)
      with (S (length rest - length tail)) by lia.
    exact IH. }
  destruct (Byte.eqb c NL); [now apply Hs|].
  destruct segs as [|s segs]; [|now apply Hs].
  apply split_NL_no_segment in E. subst tail. cbn [snd Datatypes.length].
  now rewrite Nat.sub_diag.
Qed.

Lemma substr_segment (pre rest : bytes) (start : nat) :
  start <= length pre ->
  substr (pre ++ rest) start (length pre - start) = skipn start pre.
Proof.
  intros H. unfold substr.
  rewrite skipn_app.
  replace (start - length pre) with 0 by lia. cbn [skipn].
  rewrite firstn_app, length_skipn, Nat.sub_diag. cbn [firstn].
  rewrite app_nil_r. apply firstn_all2. rewrite length_skipn. lia.
Qed.

Lemma nth_middle_byte (pre rest : bytes) (c : byte) :
  nth (length pre) (pre ++ c :: rest) x00 = c.
Proof. now rewrite nth_middle. Qed.

(** The [for] loop, started at index [length pre] with the current
    segment beginning at [start], hands the remaining segments to
    [completeLine] one by one and leaves [start] after the last
    terminator. *)
Lemma scan_loop (rest pre : bytes) (m : LogMonitor) (start : nat) :
  start <= length pre ->
  fold_left (scanStep (pre ++ rest)) (seq (length pre) (length rest))
            (m, start) =
  match fst (split_NL rest) with
  | [] => (m, start)
  | s :: segs =>
      (fold_left completeLine ((skipn start pre ++ s) :: segs) m,
       length (pre ++ rest) - length (snd (split_NL rest)))
  end.
Proof.
  revert pre m start; induction rest as [|c rest IH]; intros pre m start Hs.
  - reflexivity.
  - cbn [Datatypes.length seq fold_left].
    assert (Hbuf : pre ++ c :: rest = (pre ++ [c]) ++ rest)
      by now rewrite <- app_assoc.
    assert (Hlen : S (length pre) = length (pre ++ [c]))
      by (rewrite length_app; cbn; lia).
    unfold scanStep at 2. rewrite nth_middle_byte.
    pose proof (split_NL_tail_length rest) as Htl.
    cbn [split_NL].
    destruct (Byte.eqb c NL) eqn:Ec.
    + rewrite substr_segment by exact Hs.
      rewrite Hbuf, Nat.add_1_r, Hlen.
      rewrite IH by lia.
      rewrite skipn_all. cbn [app].
      destruct (split_NL rest) as [segs tail] eqn:E. cbn [fst snd] in *.
      destruct segs as [|s segs]; cbn [fold_left].
      * rewrite app_nil_r. f_equal.
        apply split_NL_no_segment in E. subst tail.
        rewrite (length_app (pre ++ [c]) rest). lia.
      * now rewrite app_nil_r.
    + rewrite Hbuf, Hlen. rewrite IH by (rewrite <- Hlen; lia).
      destruct (split_NL rest) as [segs tail] eqn:E. cbn [fst snd] in *.
      destruct segs as [|s segs]; cbn [fst snd]; [reflexivity|].
      rewrite skipn_app. replace (start - length pre) with 0 by lia.
      cbn [skipn]. now rewrite <- app_assoc.
Qed.

(** ** [processBuffer] against [reconstruct] *)

Lemma processBuffer_split (m : LogMonitor) (buf : bytes) :
  processBuffer m buf =
  finishBuffer
    (fold_left completeLine (fst (split_NL buf))
       (with_stats m (add_bytesRead (stats_ m) (length buf))))
    (snd (split_NL buf)).
Proof.
  unfold processBuffer.
  pose proof (scan_loop buf [] (with_stats m (add_bytesRead (stats_ m)
                (length buf))) 0 (Nat.le_refl 0)) as Hloop.
  cbn [app Datatypes.length skipn] in Hloop.
  pose proof (split_NL_tail_length buf) as Hlen.
  pose proof (split_NL_tail_suffix buf) as Hsuf.
  destruct (split_NL buf) as [segs tail] eqn:E. cbn [fst snd] in *.
  set (m0 := with_stats m (add_bytesRead (stats_ m) (length buf))) in *.
  assert (Hl : fold_left (scanStep buf) (seq 0 (length buf)) (m0, 0) =
               (fold_left completeLine segs m0, length buf - length tail)).
  { rewrite Hloop. destruct segs as [|s segs]; [|reflexivity].
    apply split_NL_no_segment in E. subst tail.
    now rewrite Nat.sub_diag. }
  rewrite Hl. clear Hl Hloop.
  set (m1 := fold_left completeLine segs m0).
  unfold finishBuffer, substr. rewrite Hsuf.
  destruct tail as [|t tail].
  - cbn [Datatypes.length]. rewrite Nat.sub_0_r, Nat.ltb_irrefl. reflexivity.
  - assert (Hlt : (length buf - length (t :: tail) <? length buf) = true)
      by (apply Nat.ltb_lt; cbn [Datatypes.length] in *; lia).
    rewrite Hlt.
    replace (length buf - (length buf - length (t :: tail)))
      with (length (t :: tail)) by lia.
    now rewrite firstn_all.
Qed.

Lemma processBuffer_reconstruct (m : LogMonitor) (buf : bytes) :
  config_ (processBuffer m buf) = config_ m /\
  partialLine_ (processBuffer m buf) =
    snd (reconstruct (partialLine_ m) buf) /\
  outStream_ (processBuffer m buf) =
    outStream_ m ++
    flat_map written
      (matched_lines (keywords (config_ m))
         (fst (reconstruct (partialLine_ m) buf))).
Proof.
  rewrite processBuffer_split. unfold reconstruct.
  destruct (split_NL buf) as [segs tail]. cbn [fst snd].
  set (m0 := with_stats m (add_bytesRead (stats_ m) (length buf))).
  destruct (fold_completeLine_facts segs m0) as (Hc & Hp & Ho).
  cbv zeta in Hc, Hp, Ho.
  change (config_ m0) with (config_ m) in *.
  change (partialLine_ m0) with (partialLine_ m) in *.
  change (outStream_ m0) with (outStream_ m) in *.
  set (m1 := fold_left completeLine segs m0) in *.
  fold (stitched (partialLine_ m) segs).
  rewrite <- Hp.
  unfold finishBuffer.
  destruct tail as [|t tail]; [cbn [fst snd]; auto|].
  destruct (MAX_LINE_LENGTH <=? length (partialLine_ m1) + length (t :: tail));
    cbn [fst snd with_stats with_partialLine config_ partialLine_ outStream_].
  - rewrite processLine_config, processLine_out.
    cbn [with_partialLine config_ outStream_].
    rewrite Hc, Ho, flat_written_app, flat_written_cons.
    unfold line_output, matched_lines. cbn [filter flat_map].
    rewrite app_nil_r, <- app_assoc. auto.
  - auto.
Qed.

Lemma processChunks_emitted (chunks : list bytes) (m : LogMonitor) :
  config_ (processChunks m chunks) = config_ m /\
  outStream_ (processChunks m chunks) =
    outStream_ m ++
    flat_map written
      (matched_lines (keywords (config_ m))
         (emitted (partialLine_ m) chunks)).
Proof.
  unfold processChunks.
  revert m; induction chunks as [|buf chunks IH]; intros m;
    cbn [fold_left emitted].
  - cbn. now rewrite app_nil_r.
  - destruct (processBuffer_reconstruct m buf) as (Hc & Hp & Ho).
    destruct (IH (processBuffer m buf)) as (Hc' & Ho').
    destruct (reconstruct (partialLine_ m) buf) as [lines carry'].
    cbn [fst snd] in *.
    rewrite Hc', Ho', Hc, Hp, Ho, flat_written_app, <- app_assoc. auto.
Qed.

(** ** What [processBuffer] leaves alone *)

Lemma completeLine_frame (m : LogMonitor) (seg : bytes) :
  inStream_ (completeLine m seg) = inStream_ m /\
  lastPosition_ (completeLine m seg) = lastPosition_ m /\
  running_ (completeLine m seg) = running_ m.
Proof.
  unfold completeLine.
  destruct (negb (is_empty (partialLine_ m)));
    cbn [with_partialLine inStream_ lastPosition_ running_].
  - match goal with
    | |- context [processLine ?a ?b] =>
        destruct (processLine_frame a b) as (_ & Hi & Hl & _ & Hr)
    end.
    now rewrite Hi, Hl, Hr.
  - destruct (processLine_frame m seg) as (_ & Hi & Hl & _ & Hr). auto.
Qed.

Lemma fold_completeLine_frame (segs : list bytes) (m : LogMonitor) :
  inStream_ (fold_left completeLine segs m) = inStream_ m /\
  lastPosition_ (fold_left completeLine segs m) = lastPosition_ m /\
  running_ (fold_left completeLine segs m) = running_ m.
Proof.
  revert m; induction segs as [|s segs IH]; intros m; cbn [fold_left].
  - auto.
  - destruct (IH (completeLine m s)) as (Hi & Hl & Hr).
    destruct (completeLine_frame m s) as (Hi' & Hl' & Hr').
    rewrite Hi, Hl, Hr. auto.
Qed.

Lemma processBuffer_frame (m : LogMonitor) (buf : bytes) :
  inStream_ (processBuffer m buf) = inStream_ m /\
  lastPosition_ (processBuffer m buf) = lastPosition_ m /\
  running_ (processBuffer m buf) = running_ m.
Proof.
  rewrite processBuffer_split.
  set (m0 := with_stats m (add_bytesRead (stats_ m) (length buf))).
  destruct (fold_completeLine_frame (fst (split_NL buf)) m0) as (Hi & Hl & Hr).
  change (inStream_ m0) with (inStream_ m) in Hi.
  change (lastPosition_ m0) with (lastPosition_ m) in Hl.
  change (running_ m0) with (running_ m) in Hr.
  set (m1 := fold_left completeLine (fst (split_NL buf)) m0) in *.
  unfold finishBuffer.
  destruct (snd (split_NL buf)) as [|t tl]; [auto|].
  destruct (MAX_LINE_LENGTH <=? _);
    cbn [with_stats with_partialLine inStream_ lastPosition_ running_];
    [|auto].
  match goal with
  | |- context [processLine ?a ?b] =>
      destruct (processLine_frame a b) as (_ & Hi' & Hl' & _ & Hr')
  end.
  rewrite Hi', Hl', Hr'. auto.
Qed.

(** ** The carry stays below the cap *)

Lemma reconstruct_carry_bound (carry buf : bytes) :
  length carry < MAX_LINE_LENGTH ->
  length (snd (reconstruct carry buf)) < MAX_LINE_LENGTH.
Proof.
  intros H. pose proof MAX_LINE_LENGTH_pos as Hpos.
  unfold reconstruct. destruct (split_NL buf) as [segs tail].
  set (carry1 := match segs with [] => carry | _ :: _ => [] end).
  assert (H1 : length carry1 < MAX_LINE_LENGTH)
    by (subst carry1; destruct segs; [exact H | exact Hpos]).
  destruct tail as [|t tail]; [exact H1|].
  destruct (MAX_LINE_LENGTH <=? length carry1 + length (t :: tail)) eqn:E;
    cbn [snd].
  - exact Hpos.
  - apply Nat.leb_gt in E. now rewrite length_app.
Qed.

Lemma processBuffer_carry_bound (m : LogMonitor) (buf : bytes) :
  length (partialLine_ m) < MAX_LINE_LENGTH ->
  length (partialLine_ (processBuffer m buf)) < MAX_LINE_LENGTH.
Proof.
  intros H. destruct (processBuffer_reconstruct m buf) as (_ & -> & _).
  now apply reconstruct_carry_bound.
Qed.

(** In the overflow branch the byte count handed to [append] is a
    positive [size_t] and stays inside the buffer. *)
Lemma overflow_count_in_range (carry tail : bytes) :
  length carry < MAX_LINE_LENGTH ->
  MAX_LINE_LENGTH <= length carry + length tail ->
  0 < MAX_LINE_LENGTH - length carry <= length tail /\
  length (carry ++ firstn (MAX_LINE_LENGTH - length carry) tail)
    = MAX_LINE_LENGTH.
Proof.
  intros H1 H2. split; [lia|].
  rewrite length_app, length_firstn. lia.
Qed.

Lemma step_carry_bound (c c' : Control * LogMonitor) (e : Event) :
  step c e = Some c' ->
  length (partialLine_ (snd c)) < MAX_LINE_LENGTH ->
  length (partialLine_ (snd c')) < MAX_LINE_LENGTH.
Proof.
  destruct c as [ctl m]. cbn [snd step]. intros Hstep H.
  assert (Hbody : forall d r,
    length (partialLine_ (snd (readBody m d r))) < MAX_LINE_LENGTH).
  { intros d r. unfold readBody.
    set (m1 := with_inStream m (read (inStream_ m) r)).
    assert (Hm1 : length (partialLine_ m1) < MAX_LINE_LENGTH) by exact H.
    destruct (0 <? length (read_data r)).
    - pose proof (processBuffer_carry_bound m1 (read_data r) Hm1) as Hb.
      destruct (tellg (inStream_ (processBuffer m1 (read_data r))))
        as [pos s].
      cbn [with_lastPosition with_inStream inStream_].
      destruct (eof s); [exact Hb|].
      destruct (fail s && negb false); [exact MAX_LINE_LENGTH_pos | exact Hb].
    - destruct (eof (inStream_ m1)); [exact Hm1|].
      destruct (fail (inStream_ m1) && negb false);
        [exact MAX_LINE_LENGTH_pos | exact Hm1]. }
  destruct ctl, e; try discriminate; cbn in Hstep;
    repeat match type of Hstep with
           | (if ?b then _ else _) = Some _ => destruct b
           | Some _ = Some _ => injection Hstep as <-
           | None = Some _ => discriminate
           end;
    try exact H; try apply Hbody.
Qed.

Lemma run_carry_bound (es : list Event) (c c' : Control * LogMonitor) :
  run c es = Some c' ->
  length (partialLine_ (snd c)) < MAX_LINE_LENGTH ->
  length (partialLine_ (snd c')) < MAX_LINE_LENGTH.
Proof.
  revert c; induction es as [|e es IH]; intros c; cbn [run].
  - now intros [= <-].
  - destruct (step c e) as [c1|] eqn:E; [|discriminate].
    intros Hrun H. apply (IH c1 Hrun). exact (step_carry_bound c c1 e E H).
Qed.

Lemma processChunks_carry_bound (chunks : list bytes) (m : LogMonitor) :
  length (partialLine_ m) < MAX_LINE_LENGTH ->
  length (partialLine_ (processChunks m chunks)) < MAX_LINE_LENGTH.
Proof.
  unfold processChunks.
  revert m; induction chunks as [|buf chunks IH]; intros m H; cbn [fold_left].
  - exact H.
  - apply IH. now apply processBuffer_carry_bound.
Qed.

(** ** Complete records in one buffer *)

Lemma split_NL_record (r rest : bytes) :
  has_NL r = false ->
  split_NL (r ++ NL :: rest) =
  (r :: fst (split_NL rest), snd (split_NL rest)).
Proof.
  induction r as [|c r IH]; cbn [app has_NL existsb]; intros H.
  - cbn [split_NL]. destruct (split_NL rest). reflexivity.
  - apply orb_false_iff in H as [Hc Hr].
    cbn [split_NL]. rewrite (IH Hr), Hc. reflexivity.
Qed.

Lemma split_NL_join (recs : list bytes) :
  existsb has_NL recs = false ->
  split_NL (join_NL recs) = (recs, []).
Proof.
  unfold join_NL.
  induction recs as [|r recs IH]; cbn [existsb flat_map]; intros H.
  - reflexivity.
  - apply orb_false_iff in H as [Hr Hrecs].
    rewrite <- app_assoc. cbn [app].
    rewrite (split_NL_record r _ Hr), (IH Hrecs). reflexivity.
Qed.

Lemma emitted_join (recs : list bytes) :
  existsb has_NL recs = false ->
  emitted [] [join_NL recs] = recs.
Proof.
  intros H. cbn [emitted]. unfold reconstruct.
  rewrite (split_NL_join recs H), app_nil_r.
  now destruct recs.
Qed.

Lemma written_length (lines : list bytes) :
  length (flat_map written lines) =
  list_sum (map (fun l => Nat.min (length l) MAX_LINE_LENGTH + 1) lines).
Proof.
  induction lines as [|l lines IH]; cbn [flat_map map list_sum].
  - reflexivity.
  - rewrite length_app, IH. unfold written.
    rewrite length_app, length_firstn. cbn [Datatypes.length].
    change (list_sum (?a :: ?b)) with (a + list_sum b). lia.
Qed.

(** ** [processBuffer] as a function of the reconstructed lines *)

Lemma with_partialLine_id (m : LogMonitor) :
  with_partialLine m (partialLine_ m) = m.
Proof. now destruct m. Qed.

Lemma with_partialLine_twice (m : LogMonitor) (p q : bytes) :
  with_partialLine (with_partialLine m p) q = with_partialLine m q.
Proof. reflexivity. Qed.

Lemma processLine_with_partialLine (m : LogMonitor) (p line : bytes) :
  processLine (with_partialLine m p) line =
  with_partialLine (processLine m line) p.
Proof.
  unfold processLine.
  destruct (is_empty line); [reflexivity|].
  destruct (MAX_LINE_LENGTH <? length line);
    cbn [with_partialLine with_stats config_ stats_];
    destruct (matches _ _); reflexivity.
Qed.

Lemma processLine_add_bytes (m : LogMonitor) (n : nat) (line : bytes) :
  processLine (add_bytes m n) line = add_bytes (processLine m line) n.
Proof.
  unfold processLine, add_bytes.
  destruct (is_empty line); [reflexivity|].
  destruct (MAX_LINE_LENGTH <? length line);
    cbn [with_stats config_ stats_];
    destruct (matches _ _); reflexivity.
Qed.

Lemma processLines_with_partialLine (lines : list bytes) (m : LogMonitor)
    (p : bytes) :
  processLines (with_partialLine m p) lines =
  with_partialLine (processLines m lines) p.
Proof.
  unfold processLines.
  revert m; induction lines as [|l lines IH]; intros m; cbn [fold_left].
  - reflexivity.
  - now rewrite processLine_with_partialLine, IH.
Qed.

Lemma processLines_add_bytes (lines : list bytes) (m : LogMonitor) (n : nat) :
  processLines (add_bytes m n) lines = add_bytes (processLines m lines) n.
Proof.
  unfold processLines.
  revert m; induction lines as [|l lines IH]; intros m; cbn [fold_left].
  - reflexivity.
  - now rewrite processLine_add_bytes, IH.
Qed.

Lemma processLines_app (lines1 lines2 : list bytes) (m : LogMonitor) :
  processLines m (lines1 ++ lines2) =
  processLines (processLines m lines1) lines2.
Proof. unfold processLines. apply fold_left_app. Qed.

Lemma completeLine_eq (m : LogMonitor) (seg : bytes) :
  completeLine m seg =
  with_partialLine (processLine m (partialLine_ m ++ seg)) [].
Proof.
  unfold completeLine.
  destruct (partialLine_ m) as [|c carry] eqn:Ec; cbn [is_empty negb app].
  - rewrite <- (with_partialLine_id (processLine m seg)) at 1.
    now rewrite processLine_partialLine, Ec.
  - cbn [with_partialLine partialLine_].
    now rewrite (processLine_with_partialLine m).
Qed.

Lemma fold_completeLine_eq (segs : list bytes) (m : LogMonitor) :
  fold_left completeLine segs m =
  with_partialLine
    (processLines m (stitched (partialLine_ m) segs))
    (match segs with [] => partialLine_ m | _ :: _ => [] end).
Proof.
  destruct segs as [|s segs]; cbn [fold_left stitched].
  - symmetry. apply with_partialLine_id.
  - rewrite completeLine_eq.
    set (m1 := processLine m (partialLine_ m ++ s)).
    change (processLines m ((partialLine_ m ++ s) :: segs))
      with (processLines m1 segs).
    clearbody m1. clear m s.
    revert m1; induction segs as [|s segs IH]; intros m1; cbn [fold_left].
    + reflexivity.
    + rewrite completeLine_eq. cbn [with_partialLine partialLine_ app].
      rewrite processLine_with_partialLine.
      change (with_partialLine (with_partialLine (processLine m1 s) []) [])
        with (with_partialLine (processLine m1 s) []).
      apply IH.
Qed.

Lemma processBuffer_functional (m : LogMonitor) (buf : bytes) :
  processBuffer m buf =
  let m1 :=
    with_partialLine
      (processLines (add_bytes m (length buf))
         (fst (reconstruct (partialLine_ m) buf)))
      (snd (reconstruct (partialLine_ m) buf)) in
  if overflows (partialLine_ m) buf then count_discarded m1 else m1.
Proof.
  rewrite processBuffer_split, fold_completeLine_eq.
  unfold reconstruct, overflows.
  fold (add_bytes m (length buf)).
  change (partialLine_ (add_bytes m (length buf))) with (partialLine_ m).
  destruct (split_NL buf) as [segs tail]. cbn [fst snd].
  fold (stitched (partialLine_ m) segs).
  set (carry1 := match segs with [] => partialLine_ m | _ :: _ => [] end).
  set (P := processLines (add_bytes m (length buf))
              (stitched (partialLine_ m) segs)).
  unfold finishBuffer. cbn [with_partialLine partialLine_].
  destruct tail as [|t tail]; cbn [is_empty negb andb fst snd];
    [reflexivity|].
  destruct (MAX_LINE_LENGTH <=? length carry1 + length (t :: tail));
    cbn [fst snd]; [|reflexivity].
  rewrite processLines_app. fold P.
  unfold processLines at 1. cbn [fold_left].
  rewrite with_partialLine_twice, processLine_with_partialLine.
  reflexivity.
Qed.

(** ** Two buffers against their concatenation *)

Lemma split_NL_app (a b : bytes) :
  split_NL (a ++ b) =
  match fst (split_NL b) with
  | [] => (fst (split_NL a), snd (split_NL a) ++ snd (split_NL b))
  | s :: segs =>
      (fst (split_NL a) ++ (snd (split_NL a) ++ s) :: segs, snd (split_NL b))
  end.
Proof.
  induction a as [|c a IH]; cbn [app].
  - cbn [split_NL fst snd app]. now destruct (split_NL b) as [[|s segs] tb].
  - cbn [split_NL]. rewrite IH.
    destruct (split_NL a) as [sa ta], (split_NL b) as [sb tb]. cbn [fst snd].
    destruct (Byte.eqb c NL), sb as [|s sb], sa as [|s0 sa]; reflexivity.
Qed.

Lemma reconstruct_eq (carry buf : bytes) :
  reconstruct carry buf =
  finish_tail (stitched carry (fst (split_NL buf)))
              (carry_after carry (fst (split_NL buf)))
              (snd (split_NL buf)).
Proof.
  unfold reconstruct, finish_tail, tail_overflows, carry_after, stitched.
  destruct (split_NL buf) as [segs tail]. cbn [fst snd].
  destruct tail as [|t tail]; cbn [is_empty negb andb].
  - now rewrite app_nil_r.
  - reflexivity.
Qed.

Lemma overflows_eq (carry buf : bytes) :
  overflows carry buf =
  tail_overflows (carry_after carry (fst (split_NL buf))) (snd (split_NL buf)).
Proof.
  unfold overflows, tail_overflows, carry_after.
  now destruct (split_NL buf) as [segs tail].
Qed.

Lemma tail_overflows_app (c1 ta tb : bytes) :
  tail_overflows c1 ta = false ->
  tail_overflows c1 (ta ++ tb) = tail_overflows (c1 ++ ta) tb.
Proof.
  unfold tail_overflows. intros H.
  destruct tb as [|t tb]; cbn [is_empty negb andb].
  - now rewrite app_nil_r.
  - replace (is_empty (ta ++ t :: tb)) with false by now destruct ta.
    cbn [negb andb]. rewrite !length_app. now rewrite Nat.add_assoc.
Qed.

Lemma finish_tail_app (lines : list bytes) (c1 ta tb : bytes) :
  tail_overflows c1 ta = false ->
  finish_tail lines c1 (ta ++ tb) = finish_tail lines (c1 ++ ta) tb.
Proof.
  intros H. unfold finish_tail. rewrite (tail_overflows_app c1 ta tb H).
  destruct (tail_overflows (c1 ++ ta) tb); [|now rewrite app_assoc].
  f_equal. f_equal. f_equal. rewrite <- app_assoc. f_equal.
  assert (Hta : length ta <= MAX_LINE_LENGTH - length c1).
  { unfold tail_overflows in H. destruct ta as [|t ta]; [cbn; lia|].
    cbn [is_empty negb andb] in H. apply Nat.leb_gt in H. lia. }
  rewrite firstn_app, (firstn_all2 ta Hta), length_app.
  f_equal. f_equal. lia.
Qed.

Lemma finish_tail_lines (lines1 lines2 : list bytes) (c t : bytes) :
  finish_tail (lines1 ++ lines2) c t =
  (lines1 ++ fst (finish_tail lines2 c t), snd (finish_tail lines2 c t)).
Proof.
  unfold finish_tail. destruct (tail_overflows c t); cbn [fst snd].
  - now rewrite app_assoc.
  - reflexivity.
Qed.

Lemma stitched_app (carry ta s : bytes) (sa sb : list bytes) :
  stitched carry (sa ++ (ta ++ s) :: sb) =
  stitched carry sa ++ stitched (carry_after carry sa ++ ta) (s :: sb).
Proof.
  destruct sa as [|s0 sa]; cbn [stitched app carry_after].
  - now rewrite app_assoc.
  - reflexivity.
Qed.

Lemma reconstruct_app (carry a b : bytes) :
  overflows carry a = false ->
  reconstruct carry (a ++ b) =
    (fst (reconstruct carry a) ++ fst (reconstruct (snd (reconstruct carry a)) b),
     snd (reconstruct (snd (reconstruct carry a)) b))
  /\ overflows carry (a ++ b) = overflows (snd (reconstruct carry a)) b.
Proof.
  rewrite (overflows_eq carry a). intros Hno.
  assert (Ha : reconstruct carry a =
               (stitched carry (fst (split_NL a)),
                carry_after carry (fst (split_NL a)) ++ snd (split_NL a)))
    by (rewrite reconstruct_eq; unfold finish_tail; now rewrite Hno).
  rewrite Ha. cbn [fst snd].
  rewrite !reconstruct_eq, !overflows_eq, split_NL_app.
  destruct (split_NL a) as [sa ta], (split_NL b) as [sb tb].
  cbn [fst snd] in *.
  destruct sb as [|s sb]; cbn [fst snd].
  - cbn [stitched carry_after].
    rewrite (finish_tail_app _ _ _ tb Hno), (tail_overflows_app _ _ tb Hno).
    split; [|reflexivity].
    rewrite <- (app_nil_r (stitched carry sa)) at 1.
    apply finish_tail_lines.
  - rewrite stitched_app.
    replace (carry_after carry (sa ++ (ta ++ s) :: sb)) with (@nil byte)
      by now destruct sa.
    cbn [carry_after]. split; [|reflexivity].
    apply finish_tail_lines.
Qed.

Lemma add64_add64 (x : Z) (a b : nat) :
  add64 (add64 x a) b = add64 x (a + b).
Proof.
  unfold add64. rewrite Zplus_mod_idemp_l. f_equal. lia.
Qed.

Lemma add_bytes_add_bytes (m : LogMonitor) (a b : nat) :
  add_bytes (add_bytes m a) b = add_bytes m (a + b).
Proof.
  unfold add_bytes, add_bytesRead. cbn [with_stats stats_ bytesRead
    linesProcessed linesMatched longLinesDiscarded config_ inStream_
    outStream_ lastPosition_ partialLine_ running_].
  now rewrite add64_add64.
Qed.

Lemma add_bytes_with_partialLine (m : LogMonitor) (p : bytes) (n : nat) :
  add_bytes (with_partialLine m p) n = with_partialLine (add_bytes m n) p.
Proof. reflexivity. Qed.

(** A buffer that does not overflow may be merged with the next one. *)
Lemma processBuffer_app (m : LogMonitor) (a b : bytes) :
  overflows (partialLine_ m) a = false ->
  processBuffer (processBuffer m a) b = processBuffer m (a ++ b).
Proof.
  intros Hno.
  destruct (reconstruct_app (partialLine_ m) a b Hno) as [Hr Ho].
  rewrite (processBuffer_functional m (a ++ b)), Hr, Ho. cbn [fst snd].
  rewrite (processBuffer_functional (processBuffer m a) b).
  destruct (processBuffer_reconstruct m a) as (_ & Hp & _). rewrite Hp.
  rewrite (processBuffer_functional m a), Hno. cbv zeta.
  set (LA := fst (reconstruct (partialLine_ m) a)).
  set (CA := snd (reconstruct (partialLine_ m) a)).
  set (LB := fst (reconstruct CA b)).
  set (CB := snd (reconstruct CA b)).
  rewrite add_bytes_with_partialLine, processLines_with_partialLine.
  rewrite with_partialLine_twice.
  rewrite <- processLines_add_bytes, add_bytes_add_bytes.
  rewrite <- processLines_app, length_app. reflexivity.
Qed.

Lemma processChunks_concat (rest : list bytes) (m : LogMonitor) (a : bytes) :
  no_overflow (partialLine_ m) (a :: rest) = true ->
  processChunks m (a :: rest) = processBuffer m (a ++ List.concat rest).
Proof.
  revert m a; induction rest as [|b rest IH]; intros m a H.
  - cbn [List.concat]. now rewrite app_nil_r.
  - cbn [no_overflow] in H. apply andb_true_iff in H as [Ha Hrest].
    apply negb_true_iff in Ha.
    change (processChunks m (a :: b :: rest))
      with (processChunks (processBuffer m a) (b :: rest)).
    destruct (processBuffer_reconstruct m a) as (_ & Hp & _).
    rewrite IH by (rewrite Hp; exact Hrest).
    cbn [List.concat]. now apply processBuffer_app.
Qed.

(** ** Inputs whose records all stay below the cap *)

Lemma split_NL_tail_app (x a : bytes) :
  snd (split_NL (x ++ a)) =
  carry_after (snd (split_NL x)) (fst (split_NL a)) ++ snd (split_NL a).
Proof.
  rewrite split_NL_app.
  destruct (split_NL x) as [sx tx], (split_NL a) as [sa ta]. cbn [fst snd].
  now destruct sa.
Qed.

(** The unterminated rest of a prefix of the input begins a record of
    the input. *)
Lemma records_tail_bound (x y : bytes) :
  exists r, In r (records (x ++ y)) /\ length (snd (split_NL x)) <= length r.
Proof.
  unfold records. rewrite split_NL_app.
  destruct (split_NL x) as [sx tx], (split_NL y) as [sy ty]. cbn [fst snd].
  destruct sy as [|s sy].
  - exists (tx ++ ty). split.
    + apply in_or_app. right. now left.
    + rewrite length_app. lia.
  - exists (tx ++ s). split.
    + apply in_or_app. left. apply in_or_app. right. now left.
    + rewrite length_app. lia.
Qed.

Lemma no_overflow_below_cap (chunks : list bytes) (pre : bytes) :
  Forall (fun r => length r < MAX_LINE_LENGTH)
         (records (pre ++ List.concat chunks)) ->
  no_overflow (snd (split_NL pre)) chunks = true.
Proof.
  revert pre; induction chunks as [|a rest IH]; intros pre H;
    cbn [no_overflow List.concat] in *; [reflexivity|].
  assert (Hlen : length (snd (split_NL (pre ++ a))) < MAX_LINE_LENGTH).
  { destruct (records_tail_bound (pre ++ a) (List.concat rest))
      as (r & Hin & Hle).
    rewrite <- app_assoc in Hin. rewrite Forall_forall in H.
    specialize (H r Hin). cbv beta in H. lia. }
  rewrite split_NL_tail_app, length_app in Hlen.
  assert (Hno : overflows (snd (split_NL pre)) a = false).
  { rewrite overflows_eq. unfold tail_overflows.
    apply andb_false_iff. right. apply Nat.leb_gt. exact Hlen. }
  rewrite Hno. cbn [negb andb].
  rewrite reconstruct_eq. unfold finish_tail.
  rewrite overflows_eq in Hno. rewrite Hno. cbn [snd].
  rewrite <- split_NL_tail_app. apply IH. now rewrite <- app_assoc.
Qed.

(** From an empty carry, an input none of whose records reaches
    [MAX_LINE_LENGTH] leaves the same object state, sink and counters
    included, however it is cut into buffers. *)
Lemma chunking_invariant_below_cap (m : LogMonitor) (a : bytes)
    (rest : list bytes) :
  partialLine_ m = [] ->
  Forall (fun r => length r < MAX_LINE_LENGTH)
         (records (a ++ List.concat rest)) ->
  processChunks m (a :: rest) = processBuffer m (a ++ List.concat rest).
Proof.
  intros Hcarry H. apply processChunks_concat. rewrite Hcarry.
  exact (no_overflow_below_cap (a :: rest) [] H).
Qed.

(** ** One buffer of complete records *)

(** The counters after one call of [processLine]: an empty line counts
    nowhere; otherwise the line is counted as processed, as discarded when
    it is longer than [MAX_LINE_LENGTH], and as matched when it is
    written. *)
Lemma processLine_stats (m : LogMonitor) (line : bytes) :
  stats_ (processLine m line) =
  if is_empty line then stats_ m
  else
    mkStatistics
      (incr64 (linesProcessed (stats_ m)))
      (if is_matched (keywords (config_ m)) line
       then incr64 (linesMatched (stats_ m)) else linesMatched (stats_ m))
      (bytesRead (stats_ m))
      (if MAX_LINE_LENGTH <? length line
       then incr64 (longLinesDiscarded (stats_ m))
       else longLinesDiscarded (stats_ m)).
Proof.
  unfold processLine, is_matched.
  destruct (is_empty line); [reflexivity|]. cbn [negb andb].
  destruct (MAX_LINE_LENGTH <? length line) eqn:Elen;
    cbn [with_stats config_ stats_].
  - destruct (matches _ _); reflexivity.
  - apply Nat.ltb_ge in Elen. rewrite (firstn_all2 line Elen).
    destruct (matches _ _); reflexivity.
Qed.

(** Read from an empty carry in one buffer, complete records are handed
    to [processLine] one by one, whole, and nothing else happens but the
    byte count. *)
Lemma processBuffer_complete_records (m : LogMonitor) (recs : list bytes) :
  partialLine_ m = [] ->
  existsb has_NL recs = false ->
  processBuffer m (join_NL recs) =
  processLines (add_bytes m (length (join_NL recs))) recs.
Proof.
  intros Hcarry Hrecs.
  rewrite processBuffer_functional, Hcarry.
  rewrite overflows_eq, reconstruct_eq, (split_NL_join recs Hrecs).
  cbn [fst snd]. unfold tail_overflows, finish_tail, tail_overflows.
  cbn [is_empty negb andb fst snd].
  replace (stitched [] recs) with recs by now destruct recs.
  replace (carry_after [] recs ++ []) with (@nil byte)
    by now destruct recs.
  rewrite <- processLines_with_partialLine.
  rewrite <- add_bytes_with_partialLine.
  rewrite <- Hcarry at 1. now rewrite with_partialLine_id.
Qed.

(** ** The scenarios of the specification *)

(** Basic filter: three lines, two of them matched. *)
Example scenario_basic_filter :
  option_map (fun m => (outStream_ m, stats_ m))
    (tail_file (monitor_key12 DEFAULT_BUFFER_SIZE) scenario_input)
  = Some (join_NL [bytes_of "alpha key1 beta"; bytes_of "key2 at start"],
          mkStatistics 3 2 44 0).
Proof. vm_compute. reflexivity. Qed.

(** Cross-buffer stitching: the same input read 7 bytes at a time. *)
Example scenario_cross_buffer :
  option_map (fun m => (outStream_ m, stats_ m))
    (tail_file (monitor_key12 7) scenario_input)
  = Some (join_NL [bytes_of "alpha key1 beta"; bytes_of "key2 at start"],
          mkStatistics 3 2 44 0).
Proof. vm_compute. reflexivity. Qed.

(** Substring and case: [key] matches [monkey]; [KEY1] is not [key1]. *)
Example scenario_substring_and_case :
  matches [bytes_of "key"] (bytes_of "monkey business") = true
  /\ matches [bytes_of "key1"] (bytes_of "KEY1 upper") = false
  /\ matches [bytes_of "key1"] (bytes_of "key1 lower") = true.
Proof. repeat split. Qed.

(** Long-line truncation in one buffer, the test [TruncatesLongLines]. *)
Example scenario_long_line :
  option_map (fun m => (outStream_ m, stats_ m))
    (tail_file (monitor_key1 DEFAULT_BUFFER_SIZE) long_input)
  = Some (long_part1 ++ [NL], mkStatistics 1 1 10006 1).
Proof. vm_compute. reflexivity. Qed.

(** C5.  For a keyword list of non-empty byte strings, [matches] answers
    true exactly when some keyword occurs in the text as a contiguous byte
    subsequence; the empty keyword list rejects every text, and the empty
    text is rejected by every such keyword list. *)
Theorem matches_iff_keyword_occurs (kws : list bytes) (text : bytes)
    (Hne : Forall (fun kw => kw <> []) kws) :
  (matches kws text = true <-> exists kw, In kw kws /\ occurs_in kw text)
  /\ matches [] text = false
  /\ matches kws [] = false.
Proof.
  split; [apply matches_spec | split; [reflexivity|]].
  destruct (matches kws []) eqn:E; [exfalso | reflexivity].
  apply matches_spec in E. destruct E as (kw & Hin & Hocc).
  apply occurs_in_nil_text in Hocc.
  rewrite Forall_forall in Hne. exact (Hne kw Hin Hocc).
Qed.

Lemma matches_iff_keyword_occurs_witness :
  let kws := [bytes_of "key1"; bytes_of "key2"] in
  let text := bytes_of "alpha key1 beta" in
  Forall (fun kw : bytes => kw <> []) kws /\
  ((matches kws text = true <-> exists kw, In kw kws /\ occurs_in kw text)
   /\ matches [] text = false
   /\ matches kws [] = false).
Proof.
  assert (H : Forall (fun kw : bytes => kw <> [])
                [bytes_of "key1"; bytes_of "key2"])
    by (repeat constructor; discriminate).
  split; [exact H|].
  exact (matches_iff_keyword_occurs _ (bytes_of "alpha key1 beta") H).
Defined.

(** C9.  A keyword list that contains the empty string accepts every
    text, the empty text included: [find] of the empty keyword is offset
    0, never [npos]. *)
Theorem matches_with_empty_keyword (kws : list bytes) (text : bytes)
    (Hin : In [] kws) :
  matches kws text = true /\ matches kws [] = true.
Proof.
  split; apply matches_spec; exists []; (split; [exact Hin|]);
    apply occurs_in_nil_kw.
Qed.

Lemma matches_with_empty_keyword_witness :
  In [] [bytes_of "key1"; []] /\
  (matches [bytes_of "key1"; []] (bytes_of "no keyword here") = true /\
   matches [bytes_of "key1"; []] [] = true).
Proof.
  assert (H : In ([] : bytes) [bytes_of "key1"; []])
    by (right; left; reflexivity).
  split; [exact H|].
  exact (matches_with_empty_keyword _ (bytes_of "no keyword here") H).
Defined.

(** Over any sequence of buffers the sink grows by exactly the matched
    lines among those handed to [processLine], in that order, each as its
    first [MAX_LINE_LENGTH] bytes followed by one ['\n'], and by nothing
    else.  Which lines are handed over depends on how the input is cut
    into buffers; for one buffer of complete records read from an empty
    carry they are the records of the input. *)
Theorem sink_holds_matched_lines (m : LogMonitor) (chunks : list bytes) :
  let kws := keywords (config_ m) in
  let lines := matched_lines kws (emitted (partialLine_ m) chunks) in
  (outStream_ (processChunks m chunks) =
     outStream_ m ++ flat_map written lines
   /\ length (outStream_ (processChunks m chunks)) =
      length (outStream_ m) +
      list_sum (map (fun l => Nat.min (length l) MAX_LINE_LENGTH + 1) lines))
  /\ (forall recs : list bytes,
        existsb has_NL recs = false ->
        partialLine_ m = [] ->
        chunks = [join_NL recs] ->
        lines = matched_lines kws recs).
Proof.
  cbv zeta. destruct (processChunks_emitted chunks m) as (_ & Ho).
  split; [split|].
  - exact Ho.
  - rewrite Ho, length_app, written_length. reflexivity.
  - intros recs Hrecs Hcarry ->. rewrite Hcarry.
    now rewrite (emitted_join recs Hrecs).
Qed.

Lemma sink_holds_matched_lines_witness :
  let m :=
    construct (mkConfig "in.log" "out.log"
                 [bytes_of "key1"; bytes_of "key2"] DEFAULT_BUFFER_SIZE 10) in
  let recs :=
    [bytes_of "alpha key1 beta"; bytes_of "no match here";
     bytes_of "key2 at start"] in
  outStream_ (processChunks m [join_NL recs]) =
    join_NL [bytes_of "alpha key1 beta"; bytes_of "key2 at start"]
  /\ matched_lines (keywords (config_ m)) (emitted [] [join_NL recs]) =
     matched_lines (keywords (config_ m)) recs.
Proof.
  cbv zeta.
  pose proof (sink_holds_matched_lines
    (construct (mkConfig "in.log" "out.log"
                  [bytes_of "key1"; bytes_of "key2"] DEFAULT_BUFFER_SIZE 10))
    [join_NL [bytes_of "alpha key1 beta"; bytes_of "no match here";
              bytes_of "key2 at start"]]) as H.
  cbv zeta in H. destruct H as [[Hout _] Hrecs]. split.
  - rewrite Hout. vm_compute. reflexivity.
  - exact (Hrecs [bytes_of "alpha key1 beta"; bytes_of "no match here";
                  bytes_of "key2 at start"] eq_refl eq_refl eq_refl).
Defined.

(** C6.  The sink does not hold the byte count of the matched records
    when a record of [MAX_LINE_LENGTH] bytes or more crosses a buffer
    boundary.  The input [exact_line ++ key1_line] is one record of 5004
    bytes that contains [key1]; the count for it is 5001.  Read in one
    buffer the sink holds 5001 bytes; read through a buffer of 5000 bytes
    it holds 5006, the cut record and then its last four bytes as a line
    of their own.  For [filler ++ key1_line], whose only record has no
    keyword in its first 5000 bytes, the sink holds 5 bytes where the
    count is 0, or 5001 when the whole record is searched. *)
Theorem sink_bytes_differ_from_matched_records :
  records (exact_line ++ key1_line) = [exact_line ++ bytes_of "key1"; []]
  /\ expected_sink_bytes [bytes_of "key1"] (exact_line ++ key1_line)
     = 5001%Z
  /\ expected_sink_bytes_raw [bytes_of "key1"] (exact_line ++ key1_line)
     = 5001%Z
  /\ sink_size (tail_file (monitor_key1 DEFAULT_BUFFER_SIZE)
                  (exact_line ++ key1_line)) = Some 5001%Z
  /\ option_map outStream_
       (tail_file (monitor_key1 MAX_LINE_LENGTH) (exact_line ++ key1_line))
     = Some (exact_line ++ [NL] ++ key1_line)
  /\ sink_size (tail_file (monitor_key1 MAX_LINE_LENGTH)
                  (exact_line ++ key1_line)) = Some 5006%Z
  /\ expected_sink_bytes [bytes_of "key1"] (filler ++ key1_line) = 0%Z
  /\ expected_sink_bytes_raw [bytes_of "key1"] (filler ++ key1_line)
     = 5001%Z
  /\ sink_size (tail_file (monitor_key1 MAX_LINE_LENGTH)
                  (filler ++ key1_line)) = Some 5%Z.
Proof.
  do 8 (split; [vm_compute; reflexivity|]). vm_compute; reflexivity.
Qed.

(** C10.  From a carry shorter than [MAX_LINE_LENGTH], as the empty carry
    of a new object is, every call of [processBuffer] ends with a carry
    shorter than [MAX_LINE_LENGTH], and so does every run of the loop of
    [start]: the branch without a terminator appends only when the sum
    stays below the cap and clears the carry otherwise. *)
Theorem carry_stays_below_cap (m : LogMonitor)
    (Hcarry : length (partialLine_ m) < MAX_LINE_LENGTH) :
  (forall buf : bytes,
      length (partialLine_ (processBuffer m buf)) < MAX_LINE_LENGTH)
  /\ (forall (chunks : list bytes),
        length (partialLine_ (processChunks m chunks)) < MAX_LINE_LENGTH)
  /\ (forall (ctl : Control) (es : list Event) (c' : Control * LogMonitor),
        run (ctl, m) es = Some c' ->
        length (partialLine_ (snd c')) < MAX_LINE_LENGTH).
Proof.
  split; [|split].
  - intros buf. exact (processBuffer_carry_bound m buf Hcarry).
  - intros chunks. exact (processChunks_carry_bound chunks m Hcarry).
  - intros ctl es c' Hrun. exact (run_carry_bound es (ctl, m) c' Hrun Hcarry).
Qed.

Lemma carry_stays_below_cap_witness :
  length (partialLine_ (monitor_key1 7)) < MAX_LINE_LENGTH /\
  length (partialLine_ (processBuffer (monitor_key1 7) (bytes_of "alpha k")))
    < MAX_LINE_LENGTH.
Proof.
  assert (H : length (partialLine_ (monitor_key1 7)) < MAX_LINE_LENGTH)
    by exact MAX_LINE_LENGTH_pos.
  split; [exact H|].
  exact (proj1 (carry_stays_below_cap (monitor_key1 7) H)
           (bytes_of "alpha k")).
Defined.

(** C7.  When a read on a good stream leaves [fail()] set without
    [eof()], that iteration of the inner loop closes the input, sets
    [lastPosition_] to zero and clears the carry, all three at once, and
    leaves the inner loop; the running loop can then only go on through
    [open], which starts again at offset zero. *)
Theorem read_error_closes_resets_clears
    (m : LogMonitor) (dataRead : bool) (r : ReadResult)
    (Hgood : good (inStream_ m) = true)
    (Hfail : fail (read (inStream_ m) r) = true)
    (Hneof : eof (read (inStream_ m) r) = false) :
  exists m',
    step (AtInner dataRead, m) (EvRead r) = Some (AtOuter, m')
    /\ is_open (inStream_ m') = false
    /\ lastPosition_ m' = 0%Z
    /\ partialLine_ m' = []
    /\ (running_ m' = true ->
        step (AtOuter, m') EvTau = None /\
        exists m'',
          step (AtOuter, m') (EvOpen true) = Some (AtInner false, m'')
          /\ is_open (inStream_ m'') = true
          /\ gpos (inStream_ m'') = 0%Z).
Proof.
  cbn [step]. rewrite Hgood. unfold readBody.
  set (m1 := with_inStream m (read (inStream_ m) r)).
  assert (Hf1 : fail (inStream_ m1) = true) by exact Hfail.
  assert (He1 : eof (inStream_ m1) = false) by exact Hneof.
  assert (Hfinal : forall m2 d : _,
    fail (inStream_ m2) = true -> eof (inStream_ m2) = false ->
    exists m',
      Some (if eof (inStream_ m2)
            then (AtOuter, with_inStream m2 (clear (inStream_ m2)))
            else if fail (inStream_ m2) && negb (eof (inStream_ m2))
                 then (AtOuter,
                       with_partialLine
                         (with_lastPosition
                            (with_inStream m2 (close (inStream_ m2))) 0) [])
                 else (AtInner d, m2)) = Some (AtOuter, m')
      /\ is_open (inStream_ m') = false
      /\ lastPosition_ m' = 0%Z
      /\ partialLine_ m' = []
      /\ (running_ m' = true ->
          step (AtOuter, m') EvTau = None /\
          exists m'',
            step (AtOuter, m') (EvOpen true) = Some (AtInner false, m'')
            /\ is_open (inStream_ m'') = true
            /\ gpos (inStream_ m'') = 0%Z)).
  { intros m2 d Hf He. rewrite He, Hf. cbn [andb negb].
    eexists. split; [reflexivity|].
    cbn [with_partialLine with_lastPosition with_inStream inStream_
         lastPosition_ partialLine_ running_ close is_open].
    repeat split.
    - cbn [step with_partialLine with_lastPosition with_inStream inStream_
           running_ close is_open]. now rewrite H.
    - cbn [step with_partialLine with_lastPosition with_inStream inStream_
           running_ close is_open lastPosition_ open andb negb].
      rewrite H. cbn. eexists. split; [reflexivity|]. cbn. auto. }
  destruct (0 <? length (read_data r)).
  - destruct (processBuffer_frame m1 (read_data r)) as (Hi & _ & _).
    unfold tellg. rewrite Hi.
    assert (Hg : good (inStream_ m1) = false).
    { unfold good, fail in *. destruct (inStream_ m1) as [o e f b g].
      cbn in *. destruct e, f, b; try discriminate; reflexivity. }
    rewrite Hg.
    apply Hfinal; cbn [with_lastPosition with_inStream inStream_ fail eof
                       failbit eofbit]; [reflexivity | exact He1].
  - apply Hfinal; assumption.
Qed.

Lemma read_error_closes_resets_clears_witness :
  let m :=
    with_partialLine
      (with_lastPosition
         (with_inStream
            (with_running
               (construct (mkConfig "in.log" "out.log" [bytes_of "key1"] 8 10))
               true)
            (mkIfstream true false false false 8))
         8)
      (bytes_of "pending") in
  exists m',
    step (AtInner true, m) (EvRead (ReadBad [])) = Some (AtOuter, m')
    /\ is_open (inStream_ m') = false
    /\ lastPosition_ m' = 0%Z
    /\ partialLine_ m' = [].
Proof.
  cbv zeta.
  destruct (read_error_closes_resets_clears
    (with_partialLine
      (with_lastPosition
         (with_inStream
            (with_running
               (construct (mkConfig "in.log" "out.log" [bytes_of "key1"] 8 10))
               true)
            (mkIfstream true false false false 8))
         8)
      (bytes_of "pending"))
    true (ReadBad []) eq_refl eq_refl eq_refl)
    as (m' & Hs & Ho & Hl & Hp & _).
  exists m'. auto.
Defined.

(** C1.  The same 5005 input bytes, [MAX_LINE_LENGTH] bytes of filler
    followed by the line [key1], give different output and different
    counters when the file is read with a buffer of 5000 bytes (two
    buffers) and with the default buffer (one buffer): the first run
    writes [key1], the second writes nothing. *)
Theorem chunking_changes_output_and_statistics :
  file_reads 3 MAX_LINE_LENGTH (filler ++ key1_line)
    = [EvRead (ReadFull filler); EvRead (ReadEof key1_line)]
  /\ file_reads 3 DEFAULT_BUFFER_SIZE (filler ++ key1_line)
    = [EvRead (ReadEof (filler ++ key1_line))]
  /\ option_map (fun m => (outStream_ m, stats_ m))
       (tail_file (monitor_key1 MAX_LINE_LENGTH) (filler ++ key1_line))
     = Some (key1_line, mkStatistics 2 1 5005 1)
  /\ option_map (fun m => (outStream_ m, stats_ m))
       (tail_file (monitor_key1 DEFAULT_BUFFER_SIZE) (filler ++ key1_line))
     = Some ([], mkStatistics 1 0 5005 1)
  /\ outStream_ (processChunks (monitor_key1 MAX_LINE_LENGTH)
                   [filler; key1_line])
     <> outStream_ (processBuffer (monitor_key1 MAX_LINE_LENGTH)
                      (filler ++ key1_line)).
Proof.
  do 4 (split; [vm_compute; reflexivity|]).
  vm_compute. discriminate.
Qed.

(** C2.  With the filler and the line [key1] read through a buffer of
    5000 bytes, the sink receives the line [key1], which is not a prefix of
    any newline-delimited record of the input: the only records are the
    5004 bytes [filler ++ key1] and the empty rest. *)
Theorem written_line_is_no_record_prefix :
  option_map outStream_
    (tail_file (monitor_key1 MAX_LINE_LENGTH) (filler ++ key1_line))
    = Some (bytes_of "key1" ++ [NL])
  /\ records (filler ++ key1_line) = [filler ++ bytes_of "key1"; []]
  /\ forallb (fun r => negb (is_prefix (bytes_of "key1") r))
       (records (filler ++ key1_line)) = true.
Proof. do 2 (split; [vm_compute; reflexivity|]). vm_compute; reflexivity. Qed.

(** C3.  The single 10005-byte line of the test [TruncatesLongLines], read
    through a buffer of 5000 bytes, is counted in [longLinesDiscarded]
    twice and makes three calls of [processLine] that count a line; read
    in one buffer it is counted once, as the test expects. *)
Theorem oversized_line_counted_twice :
  map (fun r => length r) (records long_input) = [2 * MAX_LINE_LENGTH + 5; 0]
  /\ option_map stats_ (tail_file (monitor_key1 MAX_LINE_LENGTH) long_input)
     = Some (mkStatistics 3 1 10006 2)
  /\ option_map stats_ (tail_file (monitor_key1 DEFAULT_BUFFER_SIZE) long_input)
     = Some (mkStatistics 1 1 10006 1)
  /\ emitted [] [long_part1; long_part2; long_part3]
     = [long_part1; long_part2; repeat "X"%byte 5].
Proof. do 3 (split; [vm_compute; reflexivity|]). vm_compute; reflexivity. Qed.

(** C4.  A line of exactly [MAX_LINE_LENGTH] bytes whose terminator arrives
    in the next buffer is written verbatim, and [longLinesDiscarded] is
    incremented for it; in one buffer the counter stays zero. *)
Theorem exact_cap_line_counted_as_discarded :
  length exact_line = MAX_LINE_LENGTH
  /\ file_reads 3 MAX_LINE_LENGTH (exact_line ++ [NL])
     = [EvRead (ReadFull exact_line); EvRead (ReadEof [NL])]
  /\ option_map (fun m => (outStream_ m, longLinesDiscarded (stats_ m)))
       (tail_file (monitor_key1 MAX_LINE_LENGTH) (exact_line ++ [NL]))
     = Some (exact_line ++ [NL], 1%Z)
  /\ option_map (fun m => (outStream_ m, longLinesDiscarded (stats_ m)))
       (tail_file (monitor_key1 DEFAULT_BUFFER_SIZE) (exact_line ++ [NL]))
     = Some (exact_line ++ [NL], 0%Z).
Proof. do 3 (split; [vm_compute; reflexivity|]). vm_compute; reflexivity. Qed.

(** C8.  With a buffer of 4 bytes and a 6-byte file, [lastPosition_] is 4
    after the full read and -1 after the short read that reaches end of
    file: [tellg] is called while [failbit] is set.  No read error has
    occurred, the input is still open, and the cursor has decreased below
    zero. *)
Theorem position_cursor_negative_after_short_read :
  file_reads 3 4 (bytes_of "abcdab")
    = [EvRead (ReadFull (bytes_of "abcd")); EvRead (ReadEof (bytes_of "ab"))]
  /\ option_map (fun c => lastPosition_ (snd c))
       (run (start (monitor_key1 4))
          [EvOpen true; EvRead (ReadFull (bytes_of "abcd"))])
     = Some 4%Z
  /\ option_map (fun m => (lastPosition_ m, is_open (inStream_ m)))
       (tail_file (monitor_key1 4) (bytes_of "abcdab"))
     = Some ((-1)%Z, true)
  /\ option_map lastPosition_
       (tail_file (monitor_key1 DEFAULT_BUFFER_SIZE) (bytes_of "ab"))
     = Some (-1)%Z.
Proof. do 3 (split; [vm_compute; reflexivity|]). vm_compute; reflexivity. Qed.

(** * Further properties *)

(** ** The keyword prompt *)

Lemma read_word_split (s : bytes) :
  s = fst (read_word s) ++ snd (read_word s).
Proof.
  induction s as [|c s IH]; cbn [read_word]; [reflexivity|].
  destruct (isspace c); [reflexivity|].
  destruct (read_word s) as [w rest]. cbn [fst snd app] in *. now f_equal.
Qed.

Lemma read_word_no_space (s : bytes) :
  existsb isspace (fst (read_word s)) = false.
Proof.
  induction s as [|c s IH]; cbn [read_word]; [reflexivity|].
  destruct (isspace c) eqn:Ec; [reflexivity|].
  destruct (read_word s) as [w rest]. cbn [fst existsb] in *.
  now rewrite Ec, IH.
Qed.

Lemma read_word_rest_length (s : bytes) :
  length (snd (read_word s)) <= length s.
Proof.
  rewrite (read_word_split s) at 2. rewrite length_app. lia.
Qed.

Lemma skip_ws_length (s : bytes) : length (skip_ws s) <= length s.
Proof.
  induction s as [|c s IH]; cbn [skip_ws]; [lia|].
  destruct (isspace c); cbn [Datatypes.length]; lia.
Qed.

Lemma existsb_removelast (f : byte -> bool) (l : bytes) :
  existsb f l = false -> existsb f (removelast l) = false.
Proof.
  induction l as [|c l IH]; [reflexivity|]. cbn [existsb].
  intros H. apply orb_false_iff in H as [Hc Hl].
  destruct l as [|d l]; [reflexivity|].
  change (removelast (c :: d :: l)) with (c :: removelast (d :: l)).
  cbn [existsb]. now rewrite Hc, (IH Hl).
Qed.

Lemma pop_trailing_comma_no_space (w : bytes) :
  existsb isspace w = false ->
  existsb isspace (pop_trailing_comma w) = false.
Proof.
  intros H. unfold pop_trailing_comma.
  destruct (negb (is_empty w) && Byte.eqb (last w x00) ","%byte);
    [now apply existsb_removelast | exact H].
Qed.

Lemma readKeywords_words (fuel : nat) (ss : bytes) (acc : list bytes) :
  Forall (fun k => is_word k = true) acc ->
  Forall (fun k => is_word k = true) (readKeywords fuel ss acc).
Proof.
  revert ss acc; induction fuel as [|fuel IH]; intros ss acc Hacc;
    cbn [readKeywords]; [exact Hacc|].
  pose proof (read_word_no_space (skip_ws ss)) as Hns.
  destruct (read_word (skip_ws ss)) as [keyword rest]. cbn [fst] in Hns.
  destruct (is_empty keyword); [exact Hacc|].
  apply IH.
  destruct (is_empty (pop_trailing_comma keyword)) eqn:Ek; cbn [negb];
    [exact Hacc|].
  apply Forall_app. split; [exact Hacc|].
  constructor; [|constructor].
  unfold is_word. rewrite Ek. cbn [negb andb].
  now rewrite (pop_trailing_comma_no_space keyword Hns).
Qed.

Lemma getKeywordsFromUser_words (input : bytes) :
  getKeywordsFromUser input <> [] /\
  Forall (fun k => is_word k = true) (getKeywordsFromUser input).
Proof.
  unfold getKeywordsFromUser.
  pose proof (readKeywords_words (S (length input)) input [] (Forall_nil _))
    as H.
  destruct (readKeywords (S (length input)) input []) as [|k ks].
  - split; [discriminate|]. repeat constructor.
  - split; [discriminate | exact H].
Qed.

Lemma is_word_nonempty (k : bytes) : is_word k = true -> k <> [].
Proof. destruct k; [discriminate | discriminate]. Qed.

(** X1.  Whatever line is typed at the prompt, [getKeywordsFromUser]
    returns at least one keyword, and every keyword it returns is
    non-empty and free of whitespace; consequently the keyword list of the
    prompt never matches the empty text. *)
Theorem prompt_keywords_are_words (input : bytes) :
  getKeywordsFromUser input <> []
  /\ Forall (fun k => k <> [] /\ existsb isspace k = false)
            (getKeywordsFromUser input)
  /\ matches (getKeywordsFromUser input) [] = false.
Proof.
  destruct (getKeywordsFromUser_words input) as [Hne Hw].
  split; [exact Hne|]. split.
  - eapply Forall_impl; [|exact Hw]. intros k Hk. split.
    + now apply is_word_nonempty.
    + unfold is_word in Hk. apply andb_true_iff in Hk as [_ Hk].
      now apply negb_true_iff in Hk.
  - destruct (matches (getKeywordsFromUser input) []) eqn:E;
      [exfalso | reflexivity].
    apply matches_spec in E. destruct E as (kw & Hin & Hocc).
    apply occurs_in_nil_text in Hocc. subst kw.
    rewrite Forall_forall in Hw. specialize (Hw [] Hin). discriminate.
Qed.

Lemma skip_ws_app_ws (ws x : bytes) :
  forallb isspace ws = true -> skip_ws (ws ++ x) = skip_ws x.
Proof.
  induction ws as [|c ws IH]; cbn [forallb app skip_ws]; [reflexivity|].
  intros H. apply andb_true_iff in H as [Hc Hws]. now rewrite Hc, IH.
Qed.

Lemma skip_ws_word (k r : bytes) :
  is_word k = true -> skip_ws (k ++ r) = k ++ r.
Proof.
  destruct k as [|c k]; [discriminate|].
  unfold is_word. cbn [is_empty negb andb existsb app skip_ws].
  intros H. apply negb_true_iff, orb_false_iff in H as [Hc _].
  now rewrite Hc.
Qed.

Lemma read_word_app (w r : bytes) :
  existsb isspace w = false ->
  forallb isspace (firstn 1 r) = true ->
  read_word (w ++ r) = (w, r).
Proof.
  intros Hw Hr. induction w as [|c w IH]; cbn [app].
  - destruct r as [|d r]; [reflexivity|].
    cbn [firstn forallb] in Hr. apply andb_true_iff in Hr as [Hd _].
    cbn [read_word]. now rewrite Hd.
  - cbn [existsb] in Hw. apply orb_false_iff in Hw as [Hc Hw].
    cbn [read_word]. now rewrite Hc, (IH Hw).
Qed.

Lemma pop_trailing_comma_comma (k : bytes) :
  pop_trailing_comma (k ++ [","%byte]) = k.
Proof.
  unfold pop_trailing_comma.
  replace (is_empty (k ++ [","%byte])) with false by now destruct k.
  rewrite last_last, removelast_last. reflexivity.
Qed.

Lemma pop_trailing_comma_plain (k : bytes) :
  is_plain_word k = true -> pop_trailing_comma k = k.
Proof.
  unfold is_plain_word, pop_trailing_comma. intros H.
  apply andb_true_iff in H as [_ H]. apply negb_true_iff in H.
  now rewrite H, andb_false_r.
Qed.

Lemma is_plain_word_word (k : bytes) :
  is_plain_word k = true -> is_word k = true.
Proof. unfold is_plain_word. intros H. now apply andb_true_iff in H. Qed.

Lemma is_word_no_space (k : bytes) :
  is_word k = true -> existsb isspace k = false.
Proof.
  unfold is_word. intros H. apply andb_true_iff in H as [_ H].
  now apply negb_true_iff in H.
Qed.

Lemma is_word_not_empty (k : bytes) : is_word k = true -> is_empty k = false.
Proof. now destruct k. Qed.

(** One extraction on a stream that begins with whitespace and a plain
    word, followed by nothing or by a separator. *)
Lemma readKeywords_typed (comma : bool) (gap : bytes) (ks : list bytes) :
  gap <> [] ->
  forallb isspace gap = true ->
  Forall (fun k => is_plain_word k = true) ks ->
  forall (fuel : nat) (ws : bytes) (acc : list bytes),
    length ks < fuel ->
    forallb isspace ws = true ->
    readKeywords fuel
      (ws ++ typed_line ((if comma then [","%byte] else []) ++ gap) ks) acc
    = acc ++ ks.
Proof.
  intros Hgap Hws Hks.
  set (sep := (if comma then [","%byte] else []) ++ gap).
  induction Hks as [|k ks Hk Hks IH]; intros fuel ws acc Hfuel Hw.
  - cbn [typed_line]. rewrite !app_nil_r.
    destruct fuel as [|fuel]; [reflexivity|]. cbn [readKeywords].
    rewrite <- (app_nil_r ws), skip_ws_app_ws by exact Hw. reflexivity.
  - destruct fuel as [|fuel]; [cbn in Hfuel; lia|].
    cbn [Datatypes.length] in Hfuel.
    pose proof (is_plain_word_word k Hk) as Hkw.
    pose proof (is_word_no_space k Hkw) as Hkn.
    pose proof (is_word_not_empty k Hkw) as Hke.
    cbn [readKeywords]. rewrite skip_ws_app_ws by exact Hw.
    destruct ks as [|k2 ks].
    + cbn [typed_line].
      rewrite <- (app_nil_r k) at 1. rewrite skip_ws_word by exact Hkw.
      rewrite read_word_app by (exact Hkn || reflexivity).
      rewrite Hke, (pop_trailing_comma_plain k Hk), Hke. cbn [negb].
      destruct fuel as [|fuel]; reflexivity.
    + change (typed_line sep (k :: k2 :: ks))
        with (k ++ sep ++ typed_line sep (k2 :: ks)).
      rewrite skip_ws_word by exact Hkw.
      assert (Hread :
        read_word (k ++ sep ++ typed_line sep (k2 :: ks)) =
        (k ++ (if comma then [","%byte] else []),
         gap ++ typed_line sep (k2 :: ks))).
      { subst sep. rewrite <- (app_assoc _ gap), app_assoc.
        apply read_word_app.
        - rewrite existsb_app, Hkn. now destruct comma.
        - destruct gap as [|g gap]; [congruence|].
          cbn [app firstn forallb] in *.
          apply andb_true_iff in Hws as [Hg _]. now rewrite Hg. }
      rewrite Hread.
      replace (is_empty (k ++ (if comma then [","%byte] else [])))
        with false by (destruct k; [discriminate | reflexivity]).
      assert (Hpop : pop_trailing_comma
                       (k ++ (if comma then [","%byte] else [])) = k).
      { destruct comma.
        - apply pop_trailing_comma_comma.
        - rewrite app_nil_r. now apply pop_trailing_comma_plain. }
      rewrite Hpop, Hke. cbn [negb].
      rewrite (IH fuel gap (acc ++ [k])) by (exact Hws || lia).
      now rewrite <- app_assoc.
Qed.

(** X2.  Keywords typed at the prompt come back as typed: for a
    non-empty list of words without whitespace that do not end in a comma,
    separated by whitespace or by a comma and whitespace,
    [getKeywordsFromUser] returns exactly that list, in order. *)
Theorem prompt_keywords_round_trip
    (comma : bool) (gap : bytes) (ks : list bytes)
    (Hks : ks <> [])
    (Hplain : Forall (fun k => is_plain_word k = true) ks)
    (Hgap : gap <> [])
    (Hws : forallb isspace gap = true) :
  getKeywordsFromUser
    (typed_line ((if comma then [","%byte] else []) ++ gap) ks) = ks.
Proof.
  unfold getKeywordsFromUser.
  set (line := typed_line ((if comma then [","%byte] else []) ++ gap) ks).
  assert (Hlen : length ks <= length line).
  { subst line.
    set (sep := (if comma then [","%byte] else []) ++ gap). clearbody sep.
    clear Hks. induction Hplain as [|k ks Hk Hp IH]; [cbn; lia|].
    assert (1 <= length k)
      by (destruct k; [discriminate | cbn [Datatypes.length]; lia]).
    destruct ks as [|k2 ks]; [cbn [typed_line Datatypes.length]; lia|].
    change (typed_line sep (k :: k2 :: ks))
      with (k ++ sep ++ typed_line sep (k2 :: ks)).
    rewrite !length_app. cbn [Datatypes.length] in *. lia. }
  pose proof (readKeywords_typed comma gap ks Hgap Hws Hplain
                (S (length line)) [] []) as H.
  cbn [app] in H. fold line in H.
  rewrite H by (lia || reflexivity).
  destruct ks; [congruence | reflexivity].
Qed.

Lemma prompt_keywords_round_trip_witness :
  getKeywordsFromUser (bytes_of "ERROR, key1, FILL")
  = [bytes_of "ERROR"; bytes_of "key1"; bytes_of "FILL"].
Proof.
  refine (prompt_keywords_round_trip true (bytes_of " ")
            [bytes_of "ERROR"; bytes_of "key1"; bytes_of "FILL"] _ _ _ _).
  - discriminate.
  - repeat constructor.
  - discriminate.
  - reflexivity.
Defined.

(** ** Keywords given as arguments *)

Lemma processLine_writes_matched (m : LogMonitor) (line : bytes) :
  is_matched (keywords (config_ m)) line = true ->
  outStream_ (processLine m line) =
  outStream_ m ++ firstn MAX_LINE_LENGTH line ++ [NL].
Proof. intros H. rewrite processLine_out, H. reflexivity. Qed.

(** X3.  Keywords given on the command line are taken as they are: when
    one of the arguments after the two paths is the empty string, the
    matcher built from that configuration accepts every text, and
    [processLine] writes every non-empty line (its first
    [MAX_LINE_LENGTH] bytes and a terminator). *)
Theorem empty_argument_matches_every_line
    (argv : list string) (input : bytes) (m : LogMonitor) (line : bytes)
    (Hargc : 3 < length argv)
    (Hempty : In ""%string (skipn 3 argv))
    (Hcfg : config_ m = mainConfig argv input)
    (Hline : line <> []) :
  (forall text, matches (keywords (config_ m)) text = true)
  /\ outStream_ (processLine m line) =
     outStream_ m ++ firstn MAX_LINE_LENGTH line ++ [NL].
Proof.
  assert (Hin : In [] (keywords (config_ m))).
  { rewrite Hcfg. unfold mainConfig. cbn [keywords].
    apply Nat.ltb_lt in Hargc. rewrite Hargc.
    change (@nil byte) with (bytes_of ""). now apply in_map. }
  assert (Hall : forall text, matches (keywords (config_ m)) text = true).
  { intros text. apply matches_spec. exists []. split; [exact Hin|].
    apply occurs_in_nil_kw. }
  split; [exact Hall|].
  apply processLine_writes_matched. unfold is_matched.
  rewrite Hall. now destruct line.
Qed.

Lemma empty_argument_matches_every_line_witness :
  outStream_
    (processLine
       (construct (mainConfig ["log_monitor"; "in.log"; "out.log"; ""]%string []))
       (bytes_of "no keyword here"))
  = bytes_of "no keyword here" ++ [NL].
Proof.
  pose proof (empty_argument_matches_every_line
    ["log_monitor"; "in.log"; "out.log"; ""]%string []
    (construct (mainConfig ["log_monitor"; "in.log"; "out.log"; ""]%string []))
    (bytes_of "no keyword here")) as H.
  destruct H as [_ H].
  - cbn. lia.
  - cbn. now left.
  - reflexivity.
  - discriminate.
  - rewrite H. vm_compute. reflexivity.
Defined.

(** ** The matcher as a set of keywords *)

(** X4.  The answer of [matches] depends only on which keywords are in
    the list, not on their order or on repetitions. *)
Theorem matches_depends_on_keyword_set (kws kws' : list bytes) (text : bytes)
    (Hsame : forall kw, In kw kws <-> In kw kws') :
  matches kws text = matches kws' text.
Proof.
  destruct (matches kws text) eqn:E, (matches kws' text) eqn:E';
    try reflexivity; exfalso.
  - apply matches_spec in E. destruct E as (kw & Hin & Hocc).
    assert (matches kws' text = true)
      by (apply matches_spec; exists kw; split; [now apply Hsame | exact Hocc]).
    congruence.
  - apply matches_spec in E'. destruct E' as (kw & Hin & Hocc).
    assert (matches kws text = true)
      by (apply matches_spec; exists kw; split; [now apply Hsame | exact Hocc]).
    congruence.
Qed.

Lemma matches_depends_on_keyword_set_witness :
  matches [bytes_of "key1"; bytes_of "key2"] (bytes_of "a key2 b")
  = matches [bytes_of "key2"; bytes_of "key1"; bytes_of "key2"]
            (bytes_of "a key2 b").
Proof.
  apply matches_depends_on_keyword_set.
  intros kw. cbn [In]. tauto.
Defined.

(** X5.  Matching is at the level of substrings: a text that matches
    still matches with any bytes put before and after it. *)
Theorem matches_survives_context (kws : list bytes) (pre text post : bytes)
    (Hm : matches kws text = true) :
  matches kws (pre ++ text ++ post) = true.
Proof.
  apply matches_spec in Hm. destruct Hm as (kw & Hin & p & q & ->).
  apply matches_spec. exists kw. split; [exact Hin|].
  exists (pre ++ p), (q ++ post). now rewrite <- !app_assoc.
Qed.

Lemma matches_survives_context_witness :
  matches [bytes_of "key"] (bytes_of "monkey business") = true.
Proof.
  exact (matches_survives_context [bytes_of "key"] (bytes_of "mon")
           (bytes_of "key") (bytes_of " business") eq_refl).
Defined.

(** ** Terminators never enter a line or the carry *)

Lemma has_NL_app (a b : bytes) : has_NL (a ++ b) = has_NL a || has_NL b.
Proof. unfold has_NL. apply existsb_app. Qed.

Lemma has_NL_firstn (n : nat) (l : bytes) :
  has_NL l = false -> has_NL (firstn n l) = false.
Proof.
  revert n; induction l as [|c l IH]; intros n H.
  - now rewrite firstn_nil.
  - destruct n as [|n]; [reflexivity|].
    unfold has_NL in *. cbn [firstn existsb] in *.
    apply orb_false_iff in H as [Hc Hl]. now rewrite Hc, (IH n Hl).
Qed.

Lemma split_NL_free (buf : bytes) :
  existsb has_NL (fst (split_NL buf)) = false /\
  has_NL (snd (split_NL buf)) = false.
Proof.
  induction buf as [|c buf IH]; cbn [split_NL]; [now split|].
  destruct (split_NL buf) as [segs tail]. cbn [fst snd] in *.
  destruct IH as [Hs Ht].
  destruct (Byte.eqb c NL) eqn:Ec; cbn [fst snd existsb].
  - now split.
  - destruct segs as [|s segs]; cbn [fst snd existsb] in *.
    + split; [reflexivity|]. unfold has_NL in *. cbn [existsb].
      now rewrite Ec.
    + apply orb_false_iff in Hs as [Hs1 Hs2]. split; [|exact Ht].
      unfold has_NL in *. cbn [existsb]. now rewrite Ec, Hs1.
Qed.

Lemma split_NL_no_NL (buf : bytes) :
  has_NL buf = false -> split_NL buf = ([], buf).
Proof.
  induction buf as [|c buf IH]; [reflexivity|].
  unfold has_NL in *. cbn [existsb split_NL]. intros H.
  apply orb_false_iff in H as [Hc Hb]. now rewrite (IH Hb), Hc.
Qed.

Lemma stitched_free (carry : bytes) (segs : list bytes) :
  has_NL carry = false ->
  existsb has_NL segs = false ->
  existsb has_NL (stitched carry segs) = false.
Proof.
  intros Hc Hs. destruct segs as [|s segs]; [reflexivity|].
  cbn [stitched existsb] in *. apply orb_false_iff in Hs as [Hs1 Hs2].
  now rewrite has_NL_app, Hc, Hs1.
Qed.

Lemma reconstruct_free (carry buf : bytes) :
  has_NL carry = false ->
  existsb has_NL (fst (reconstruct carry buf)) = false /\
  has_NL (snd (reconstruct carry buf)) = false.
Proof.
  intros Hc. rewrite reconstruct_eq.
  destruct (split_NL_free buf) as [Hs Ht].
  pose proof (stitched_free carry _ Hc Hs) as Hl.
  assert (Hc1 : has_NL (carry_after carry (fst (split_NL buf))) = false)
    by (unfold carry_after; destruct (fst (split_NL buf)); easy).
  unfold finish_tail.
  destruct (tail_overflows _ _); cbn [fst snd].
  - split; [|reflexivity].
    rewrite existsb_app, Hl. cbn [existsb].
    now rewrite has_NL_app, Hc1, (has_NL_firstn _ _ Ht).
  - split; [exact Hl|]. now rewrite has_NL_app, Hc1, Ht.
Qed.

Lemma emitted_free (chunks : list bytes) (carry : bytes) :
  has_NL carry = false ->
  existsb has_NL (emitted carry chunks) = false.
Proof.
  revert carry; induction chunks as [|buf chunks IH]; intros carry Hc;
    cbn [emitted]; [reflexivity|].
  destruct (reconstruct_free carry buf Hc) as [Hl Hc'].
  destruct (reconstruct carry buf) as [lines carry']. cbn [fst snd] in *.
  now rewrite existsb_app, Hl, (IH carry' Hc').
Qed.

Lemma processBuffer_carry_free (m : LogMonitor) (buf : bytes) :
  has_NL (partialLine_ m) = false ->
  has_NL (partialLine_ (processBuffer m buf)) = false.
Proof.
  intros H. destruct (processBuffer_reconstruct m buf) as (_ & -> & _).
  now apply reconstruct_free.
Qed.

(** A property of the carry that holds of the empty carry and that
    [processBuffer] keeps is kept by every step of the loop. *)
Lemma step_carry_invariant (P : bytes -> Prop) :
  P [] ->
  (forall m buf, P (partialLine_ m) -> P (partialLine_ (processBuffer m buf))) ->
  forall (c c' : Control * LogMonitor) (e : Event),
    step c e = Some c' ->
    P (partialLine_ (snd c)) -> P (partialLine_ (snd c')).
Proof.
  intros Hnil Hbuf [ctl m] c' e. cbn [snd step]. intros Hstep H.
  assert (Hbody : forall d r, P (partialLine_ (snd (readBody m d r)))).
  { intros d r. unfold readBody.
    set (m1 := with_inStream m (read (inStream_ m) r)).
    assert (Hm1 : P (partialLine_ m1)) by exact H.
    destruct (0 <? length (read_data r)).
    - pose proof (Hbuf m1 (read_data r) Hm1) as Hb.
      destruct (tellg (inStream_ (processBuffer m1 (read_data r))))
        as [pos s].
      cbn [with_lastPosition with_inStream inStream_].
      destruct (eof s); [exact Hb|].
      destruct (fail s && negb false); [exact Hnil | exact Hb].
    - destruct (eof (inStream_ m1)); [exact Hm1|].
      destruct (fail (inStream_ m1) && negb false);
        [exact Hnil | exact Hm1]. }
  destruct ctl, e; try discriminate; cbn in Hstep;
    repeat match type of Hstep with
           | (if ?b then _ else _) = Some _ => destruct b
           | Some _ = Some _ => injection Hstep as <-
           | None = Some _ => discriminate
           end;
    try exact H; try apply Hbody.
Qed.

Lemma run_carry_invariant (P : bytes -> Prop) :
  P [] ->
  (forall m buf, P (partialLine_ m) -> P (partialLine_ (processBuffer m buf))) ->
  forall (es : list Event) (c c' : Control * LogMonitor),
    run c es = Some c' ->
    P (partialLine_ (snd c)) -> P (partialLine_ (snd c')).
Proof.
  intros Hnil Hbuf es. induction es as [|e es IH]; intros c c'; cbn [run].
  - now intros [= <-].
  - destruct (step c e) as [c1|] eqn:E; [|discriminate].
    intros Hrun H. apply (IH c1 c' Hrun).
    exact (step_carry_invariant P Hnil Hbuf c c1 e E H).
Qed.

(** X6.  The carry never holds a terminator: from a carry without
    ['\n'], as the empty carry of a new object is, every call of
    [processBuffer] and every run of the loop of [start] leaves a carry
    without ['\n']. *)
Theorem carry_holds_no_terminator (m : LogMonitor)
    (Hcarry : has_NL (partialLine_ m) = false) :
  (forall buf : bytes, has_NL (partialLine_ (processBuffer m buf)) = false)
  /\ (forall (ctl : Control) (es : list Event) (c' : Control * LogMonitor),
        run (ctl, m) es = Some c' ->
        has_NL (partialLine_ (snd c')) = false).
Proof.
  split.
  - intros buf. now apply processBuffer_carry_free.
  - intros ctl es c' Hrun.
    exact (run_carry_invariant (fun l => has_NL l = false) eq_refl
             processBuffer_carry_free es (ctl, m) c' Hrun Hcarry).
Qed.

Lemma carry_holds_no_terminator_witness :
  has_NL (partialLine_
            (processBuffer (monitor_key1 7) (bytes_of "alpha k"))) = false.
Proof.
  exact (proj1 (carry_holds_no_terminator (monitor_key1 7) eq_refl)
           (bytes_of "alpha k")).
Defined.

(** ** Unterminated data *)

(** X7.  Bytes without a terminator that fit below the cap are only
    appended to the carry: nothing is written or counted but the bytes
    read, so an input that ends without ['\n'] leaves its last line in the
    carry and out of the sink. *)
Theorem unterminated_data_stays_in_carry (m : LogMonitor) (buf : bytes)
    (Hfree : has_NL buf = false)
    (Hfit : length (partialLine_ m) + length buf < MAX_LINE_LENGTH) :
  processBuffer m buf =
  with_partialLine (add_bytes m (length buf)) (partialLine_ m ++ buf).
Proof.
  rewrite processBuffer_functional, overflows_eq, reconstruct_eq.
  rewrite (split_NL_no_NL buf Hfree). cbn [fst snd stitched carry_after].
  unfold finish_tail.
  assert (Ho : tail_overflows (partialLine_ m) buf = false).
  { unfold tail_overflows. apply andb_false_iff. right.
    now apply Nat.leb_gt. }
  rewrite Ho. reflexivity.
Qed.

Lemma unterminated_data_stays_in_carry_witness :
  outStream_ (processBuffer (monitor_key1 7) (bytes_of "key1 no end")) = []
  /\ partialLine_ (processBuffer (monitor_key1 7) (bytes_of "key1 no end"))
     = bytes_of "key1 no end".
Proof.
  assert (Hfit : length (partialLine_ (monitor_key1 7))
                 + length (bytes_of "key1 no end") < MAX_LINE_LENGTH)
    by (vm_compute; lia).
  rewrite (unterminated_data_stays_in_carry (monitor_key1 7)
             (bytes_of "key1 no end") eq_refl Hfit).
  split; reflexivity.
Defined.

(** ** The framing of the sink *)

Lemma flat_written_join (lines : list bytes) :
  flat_map written lines = join_NL (map (firstn MAX_LINE_LENGTH) lines).
Proof.
  unfold join_NL, written.
  induction lines as [|l lines IH]; cbn [flat_map map]; [reflexivity|].
  now rewrite IH.
Qed.

Lemma map_firstn_free (lines : list bytes) :
  existsb has_NL lines = false ->
  existsb has_NL (map (firstn MAX_LINE_LENGTH) lines) = false.
Proof.
  induction lines as [|l lines IH]; cbn [existsb map]; [reflexivity|].
  intros H. apply orb_false_iff in H as [Hl Hls].
  now rewrite (has_NL_firstn _ _ Hl), (IH Hls).
Qed.

Lemma matched_lines_free (kws : list bytes) (lines : list bytes) :
  existsb has_NL lines = false ->
  existsb has_NL (matched_lines kws lines) = false.
Proof.
  unfold matched_lines.
  induction lines as [|l lines IH]; cbn [existsb filter]; [reflexivity|].
  intros H. apply orb_false_iff in H as [Hl Hls].
  destruct (is_matched kws l); cbn [existsb]; [rewrite Hl|]; now apply IH.
Qed.

Lemma firstn_nonempty (l : bytes) :
  is_empty l = false -> is_empty (firstn MAX_LINE_LENGTH l) = false.
Proof.
  pose proof MAX_LINE_LENGTH_pos as Hpos.
  destruct l as [|c l]; [discriminate|]. intros _.
  destruct MAX_LINE_LENGTH; [lia | reflexivity].
Qed.

(** What the sink holds for a matched line: not empty, at most
    [MAX_LINE_LENGTH] bytes, with a keyword. *)
Lemma written_line_facts (kws : list bytes) (l : bytes) :
  is_matched kws l = true ->
  is_empty (firstn MAX_LINE_LENGTH l) = false /\
  length (firstn MAX_LINE_LENGTH l) <= MAX_LINE_LENGTH /\
  matches kws (firstn MAX_LINE_LENGTH l) = true.
Proof.
  unfold is_matched. intros H. apply andb_true_iff in H as [He Hm].
  apply negb_true_iff in He. repeat split.
  - now apply firstn_nonempty.
  - rewrite length_firstn. lia.
  - exact Hm.
Qed.

Lemma sink_framing (m : LogMonitor) (chunks : list bytes) :
  has_NL (partialLine_ m) = false ->
  let kws := keywords (config_ m) in
  let sunk :=
    map (firstn MAX_LINE_LENGTH)
        (matched_lines kws (emitted (partialLine_ m) chunks)) in
  outStream_ (processChunks m chunks) = outStream_ m ++ join_NL sunk
  /\ split_NL (join_NL sunk) = (sunk, [])
  /\ Forall (fun w => w <> [] /\ length w <= MAX_LINE_LENGTH
                      /\ matches kws w = true) sunk.
Proof.
  intros Hcarry.
  cbv zeta. destruct (processChunks_emitted chunks m) as (_ & Ho).
  split; [|split].
  - now rewrite Ho, flat_written_join.
  - apply split_NL_join, map_firstn_free, matched_lines_free.
    now apply emitted_free.
  - apply Forall_forall. intros w Hin.
    apply in_map_iff in Hin as (l & <- & Hl).
    unfold matched_lines in Hl. apply filter_In in Hl as [_ Hl].
    destruct (written_line_facts _ l Hl) as (He & Hlen & Hm).
    repeat split; [|exact Hlen | exact Hm].
    intros E. now rewrite E in He.
Qed.

(** X8.  The sink keeps its line framing.  What a run of buffers adds to
    the sink, from a carry without ['\n'], is a sequence of complete
    lines: cut at ['\n'] it gives back exactly the lines written, with
    nothing left over, and each of them is non-empty, at most
    [MAX_LINE_LENGTH] bytes long and contains a keyword. *)
Theorem sink_is_framed (m : LogMonitor) (chunks : list bytes)
    (Hcarry : has_NL (partialLine_ m) = false) :
  let kws := keywords (config_ m) in
  let sunk :=
    map (firstn MAX_LINE_LENGTH)
        (matched_lines kws (emitted (partialLine_ m) chunks)) in
  outStream_ (processChunks m chunks) = outStream_ m ++ join_NL sunk
  /\ split_NL (join_NL sunk) = (sunk, [])
  /\ Forall (fun w => w <> [] /\ length w <= MAX_LINE_LENGTH
                      /\ matches kws w = true) sunk.
Proof.
  cbv zeta. destruct (processChunks_emitted chunks m) as (_ & Ho).
  pose proof (emitted_free chunks (partialLine_ m) Hcarry) as Hfree.
  split; [|split].
  - now rewrite Ho, flat_written_join.
  - now apply split_NL_join, map_firstn_free, matched_lines_free.
  - apply Forall_forall. intros w Hin.
    apply in_map_iff in Hin as (l & <- & Hl).
    unfold matched_lines in Hl. apply filter_In in Hl as [_ Hl].
    destruct (written_line_facts _ l Hl) as (He & Hlen & Hm).
    repeat split; [|exact Hlen | exact Hm].
    intros E. now rewrite E in He.
Qed.

Lemma sink_is_framed_witness :
  split_NL (outStream_ (processChunks (monitor_key12 7)
                          [bytes_of "alpha k"; bytes_of "ey1 beta" ++ [NL]]))
  = ([bytes_of "alpha key1 beta"], []).
Proof.
  destruct (sink_is_framed (monitor_key12 7)
              [bytes_of "alpha k"; bytes_of "ey1 beta" ++ [NL]] eq_refl)
    as (Ho & Hs & _).
  rewrite Ho. cbn [outStream_ monitor_key12 construct app].
  rewrite Hs. vm_compute. reflexivity.
Defined.

(** ** Filtering twice *)

Lemma processLines_facts (lines : list bytes) (m : LogMonitor) :
  config_ (processLines m lines) = config_ m /\
  partialLine_ (processLines m lines) = partialLine_ m /\
  outStream_ (processLines m lines) =
    outStream_ m ++
    flat_map written (matched_lines (keywords (config_ m)) lines).
Proof.
  unfold processLines.
  revert m; induction lines as [|l lines IH]; intros m; cbn [fold_left].
  - cbn. now rewrite app_nil_r.
  - destruct (IH (processLine m l)) as (Hc & Hp & Ho).
    rewrite Hc, Hp, Ho, processLine_config, processLine_partialLine,
      processLine_out, flat_written_cons, <- app_assoc.
    auto.
Qed.

Lemma matched_lines_all (kws : list bytes) (lines : list bytes) :
  Forall (fun w => w <> [] /\ length w <= MAX_LINE_LENGTH
                   /\ matches kws w = true) lines ->
  flat_map written (matched_lines kws lines) = join_NL lines.
Proof.
  unfold join_NL.
  induction 1 as [|w lines (Hne & Hlen & Hm) _ IH]; [reflexivity|].
  rewrite flat_written_cons. cbn [flat_map]. rewrite IH.
  unfold line_output, is_matched, written.
  rewrite (firstn_all2 w Hlen), Hm.
  now destruct w.
Qed.

(** X9.  Filtering is idempotent.  The bytes a new object has written for
    any sequence of buffers, read back in one buffer by an object with the
    same keywords and an empty carry, are written again unchanged. *)
Theorem filtering_twice_changes_nothing
    (config : Config) (chunks : list bytes) (m2 : LogMonitor)
    (Hkws : keywords (config_ m2) = keywords config)
    (Hcarry : partialLine_ m2 = []) :
  outStream_
    (processBuffer m2 (outStream_ (processChunks (construct config) chunks)))
  = outStream_ m2 ++ outStream_ (processChunks (construct config) chunks).
Proof.
  destruct (sink_framing (construct config) chunks eq_refl)
    as (Ho & Hs & Hall).
  cbv zeta in Ho, Hs, Hall. cbn [construct config_ outStream_ partialLine_
    app] in Ho, Hs, Hall.
  set (sunk := map (firstn MAX_LINE_LENGTH)
                 (matched_lines (keywords config) (emitted [] chunks))) in *.
  rewrite Ho.
  assert (Hfree : existsb has_NL sunk = false).
  { pose proof (split_NL_free (join_NL sunk)) as [Hf _].
    now rewrite Hs in Hf. }
  rewrite (processBuffer_complete_records m2 sunk Hcarry Hfree).
  destruct (processLines_facts sunk (add_bytes m2 (length (join_NL sunk))))
    as (_ & _ & Hout).
  rewrite Hout. cbn [add_bytes with_stats outStream_ config_].
  rewrite Hkws. now rewrite (matched_lines_all _ _ Hall).
Qed.

Lemma filtering_twice_changes_nothing_witness :
  outStream_
    (processBuffer (monitor_key12 DEFAULT_BUFFER_SIZE)
       (outStream_ (processChunks (monitor_key12 7) [scenario_input])))
  = outStream_ (processChunks (monitor_key12 7) [scenario_input]).
Proof.
  exact (filtering_twice_changes_nothing
           (mkConfig "test_in.log" "test_out.log"
              [bytes_of "key1"; bytes_of "key2"] 7 10)
           [scenario_input] (monitor_key12 DEFAULT_BUFFER_SIZE)
           eq_refl eq_refl).
Defined.

(** ** Lines below the cap: the sink for every chunking *)

Lemma records_join (recs : list bytes) :
  existsb has_NL recs = false -> records (join_NL recs) = recs ++ [[]].
Proof. intros H. unfold records. now rewrite (split_NL_join recs H). Qed.

Lemma join_NL_nil (recs : list bytes) : join_NL recs = [] -> recs = [].
Proof.
  destruct recs as [|r recs]; [reflexivity|].
  unfold join_NL. cbn [flat_map]. intros H.
  apply app_eq_nil in H as [H _]. now apply app_eq_nil in H as [_ H].
Qed.

Lemma written_selected (kws : list bytes) (recs : list bytes) :
  Forall (fun r => length r < MAX_LINE_LENGTH) recs ->
  flat_map written (matched_lines kws recs) = join_NL (selected kws recs).
Proof.
  unfold join_NL, selected.
  induction 1 as [|r recs Hr _ IH]; [reflexivity|].
  rewrite flat_written_cons, IH. cbn [filter].
  unfold line_output, is_matched, written.
  rewrite (firstn_all2 r) by lia.
  destruct (negb (is_empty r) && matches kws r); reflexivity.
Qed.

Lemma processChunks_below_cap (m : LogMonitor) (recs chunks : list bytes) :
  partialLine_ m = [] ->
  existsb has_NL recs = false ->
  Forall (fun r => length r < MAX_LINE_LENGTH) recs ->
  List.concat chunks = join_NL recs ->
  outStream_ (processChunks m chunks) =
    outStream_ m ++ join_NL (selected (keywords (config_ m)) recs)
  /\ partialLine_ (processChunks m chunks) = [].
Proof.
  intros Hcarry Hfree Hshort Hcat.
  destruct chunks as [|a rest].
  - cbn [List.concat] in Hcat. symmetry in Hcat.
    apply join_NL_nil in Hcat. subst recs.
    cbn. now rewrite app_nil_r.
  - cbn [List.concat] in Hcat.
    rewrite (chunking_invariant_below_cap m a rest Hcarry).
    + rewrite Hcat, (processBuffer_complete_records m recs Hcarry Hfree).
      destruct (processLines_facts recs (add_bytes m (length (join_NL recs))))
        as (_ & Hp & Ho).
      rewrite Hp, Ho. cbn [add_bytes with_stats outStream_ config_
        partialLine_].
      now rewrite (written_selected _ _ Hshort).
    + rewrite Hcat, (records_join recs Hfree).
      apply Forall_app. split; [exact Hshort|].
      constructor; [exact MAX_LINE_LENGTH_pos | constructor].
Qed.

(** X10.  Below the cap the pipeline is a line filter, whatever the
    buffers are.  For complete lines that are all shorter than
    [MAX_LINE_LENGTH], read from an empty carry and cut into buffers in any
    way, the sink receives exactly the non-empty lines that contain a
    keyword, verbatim and in order, each followed by ['\n'], and the carry
    is empty afterwards. *)
Theorem short_lines_are_filtered_for_every_chunking
    (m : LogMonitor) (recs chunks : list bytes)
    (Hcarry : partialLine_ m = [])
    (Hfree : existsb has_NL recs = false)
    (Hshort : Forall (fun r => length r < MAX_LINE_LENGTH) recs)
    (Hcat : List.concat chunks = join_NL recs) :
  outStream_ (processChunks m chunks) =
    outStream_ m ++ join_NL (selected (keywords (config_ m)) recs)
  /\ partialLine_ (processChunks m chunks) = [].
Proof.
  destruct chunks as [|a rest].
  - cbn [List.concat] in Hcat. symmetry in Hcat.
    apply join_NL_nil in Hcat. subst recs.
    cbn. now rewrite app_nil_r.
  - cbn [List.concat] in Hcat.
    assert (Hrecords : Forall (fun r => length r < MAX_LINE_LENGTH)
                         (records (a ++ List.concat rest))).
    { rewrite Hcat, (records_join recs Hfree).
      apply Forall_app. split; [exact Hshort|].
      constructor; [exact MAX_LINE_LENGTH_pos | constructor]. }
    rewrite (chunking_invariant_below_cap m a rest Hcarry Hrecords), Hcat.
    rewrite (processBuffer_complete_records m recs Hcarry Hfree).
    destruct (processLines_facts recs (add_bytes m (length (join_NL recs))))
      as (_ & Hp & Ho).
    rewrite Hp, Ho. cbn [add_bytes with_stats outStream_ config_ partialLine_].
    now rewrite (written_selected _ _ Hshort).
Qed.

Lemma short_lines_are_filtered_for_every_chunking_witness :
  outStream_
    (processChunks (monitor_key12 7)
       [bytes_of "alpha k"; bytes_of "ey1 beta" ++ [NL] ++ bytes_of "no ma";
        bytes_of "tch here" ++ [NL]])
  = bytes_of "alpha key1 beta" ++ [NL].
Proof.
  assert (Hshort : Forall (fun r : bytes => length r < MAX_LINE_LENGTH)
                     [bytes_of "alpha key1 beta"; bytes_of "no match here"])
    by (repeat constructor; vm_compute; lia).
  destruct (short_lines_are_filtered_for_every_chunking (monitor_key12 7)
              [bytes_of "alpha key1 beta"; bytes_of "no match here"]
              [bytes_of "alpha k";
               bytes_of "ey1 beta" ++ [NL] ++ bytes_of "no ma";
               bytes_of "tch here" ++ [NL]]
              eq_refl eq_refl Hshort eq_refl) as [Ho _].
  rewrite Ho. vm_compute. reflexivity.
Defined.

(** ** Runs of the loop *)

Lemma agree_refl (m : LogMonitor) : agree m m.
Proof. now repeat split. Qed.

Lemma agree_sym (m1 m2 : LogMonitor) : agree m1 m2 -> agree m2 m1.
Proof. intros (Hc & Ho & Hp). now repeat split. Qed.

Lemma agree_trans (m1 m2 m3 : LogMonitor) :
  agree m1 m2 -> agree m2 m3 -> agree m1 m3.
Proof.
  intros (Hc & Ho & Hp) (Hc' & Ho' & Hp'). repeat split; congruence.
Qed.

Lemma processBuffer_agree (m1 m2 : LogMonitor) (buf : bytes) :
  agree m1 m2 -> agree (processBuffer m1 buf) (processBuffer m2 buf).
Proof.
  intros (Hc & Ho & Hp).
  destruct (processBuffer_reconstruct m1 buf) as (Hc1 & Hp1 & Ho1).
  destruct (processBuffer_reconstruct m2 buf) as (Hc2 & Hp2 & Ho2).
  repeat split; congruence.
Qed.

Lemma processChunks_agree (chunks : list bytes) (m1 m2 : LogMonitor) :
  agree m1 m2 -> agree (processChunks m1 chunks) (processChunks m2 chunks).
Proof.
  unfold processChunks.
  revert m1 m2; induction chunks as [|buf chunks IH]; intros m1 m2 H;
    cbn [fold_left]; [exact H|].
  apply IH. now apply processBuffer_agree.
Qed.

Lemma processBuffer_nil_agree (m : LogMonitor) : agree (processBuffer m []) m.
Proof.
  destruct (processBuffer_reconstruct m []) as (Hc & Hp & Ho).
  cbn in Hp, Ho. rewrite app_nil_r in Ho. now repeat split.
Qed.

Lemma processChunks_app (chunks1 chunks2 : list bytes) (m : LogMonitor) :
  processChunks m (chunks1 ++ chunks2) =
  processChunks (processChunks m chunks1) chunks2.
Proof. unfold processChunks. apply fold_left_app. Qed.

Lemma run_app (es1 es2 : list Event) (c : Control * LogMonitor) :
  run c (es1 ++ es2) =
  match run c es1 with
  | Some c1 => run c1 es2
  | None => None
  end.
Proof.
  revert c; induction es1 as [|e es1 IH]; intros c; cbn [app run];
    [reflexivity|].
  destruct (step c e) as [c1|]; [apply IH | reflexivity].
Qed.

(** One pass of the inner loop on a good stream: a read that stores
    data and does not reach end of file stays in the loop ... *)
Lemma readBody_full (m : LogMonitor) (d : bool) (data : bytes) :
  good (inStream_ m) = true ->
  exists d' M,
    readBody m d (ReadFull data) = (AtInner d', M)
    /\ agree M (processBuffer m data)
    /\ running_ M = running_ m
    /\ is_open (inStream_ M) = is_open (inStream_ m)
    /\ good (inStream_ M) = true.
Proof.
  intros Hgood. unfold readBody.
  set (s1 := read (inStream_ m) (ReadFull data)).
  assert (Hg1 : good s1 = true) by exact Hgood.
  assert (Ho1 : is_open s1 = is_open (inStream_ m)) by reflexivity.
  set (m1 := with_inStream m s1).
  assert (Ha1 : agree m1 m) by (repeat split).
  assert (He1 : eof s1 = false /\ fail s1 = false).
  { unfold good, eof, fail in *. destruct s1 as [o e f b g]. cbn in *.
    destruct e, f, b; try discriminate; auto. }
  destruct He1 as [He1 Hf1].
  destruct (0 <? length (read_data (ReadFull data))) eqn:Elen.
  - destruct (processBuffer_frame m1 data) as (Hi & _ & Hr).
    cbn [read_data]. unfold tellg. rewrite Hi.
    change (inStream_ m1) with s1. rewrite Hg1.
    cbn [with_lastPosition with_inStream inStream_]. rewrite He1, Hf1.
    cbn [andb]. eexists _, _. split; [reflexivity|].
    cbn [with_lastPosition with_inStream inStream_ running_].
    repeat split; try assumption.
    + apply (processBuffer_agree m1 m data Ha1).
    + apply (processBuffer_agree m1 m data Ha1).
    + apply (processBuffer_agree m1 m data Ha1).
  - change (inStream_ m1) with s1. rewrite He1, Hf1. cbn [andb].
    assert (Hag : agree m1 (processBuffer m data)).
    { cbn [read_data] in Elen. apply Nat.ltb_ge in Elen.
      destruct data; [|cbn in Elen; lia].
      apply (agree_trans m1 m _ Ha1), agree_sym, processBuffer_nil_agree. }
    eexists _, _. exact (conj eq_refl (conj Hag (conj eq_refl (conj Ho1 Hg1)))).
Qed.

(** ... and a read that reaches end of file leaves it, with the state bits
    cleared and the file still open. *)
Lemma readBody_eof (m : LogMonitor) (d : bool) (data : bytes) :
  exists M,
    readBody m d (ReadEof data) = (AtOuter, M)
    /\ agree M (processBuffer m data)
    /\ running_ M = running_ m
    /\ is_open (inStream_ M) = is_open (inStream_ m)
    /\ good (inStream_ M) = true.
Proof.
  unfold readBody.
  set (s1 := read (inStream_ m) (ReadEof data)).
  assert (Hg1 : good s1 = false) by reflexivity.
  assert (He1 : eof s1 = true) by reflexivity.
  set (m1 := with_inStream m s1).
  assert (Ha1 : agree m1 m) by (repeat split).
  destruct (0 <? length (read_data (ReadEof data))) eqn:Elen.
  - destruct (processBuffer_frame m1 data) as (Hi & _ & Hr).
    cbn [read_data]. unfold tellg. rewrite Hi.
    change (inStream_ m1) with s1. rewrite Hg1.
    cbn [with_lastPosition with_inStream inStream_ eof eofbit].
    change (eofbit s1) with true. cbn match.
    eexists. split; [reflexivity|].
    cbn [with_lastPosition with_inStream inStream_ running_ clear is_open
         good eofbit failbit badbit orb negb].
    repeat split; try assumption; apply (processBuffer_agree m1 m data Ha1).
  - change (inStream_ m1) with s1. rewrite He1.
    assert (Hag : agree m1 (processBuffer m data)).
    { cbn [read_data] in Elen. apply Nat.ltb_ge in Elen.
      destruct data; [|cbn in Elen; lia].
      apply (agree_trans m1 m _ Ha1), agree_sym, processBuffer_nil_agree. }
    eexists. split; [reflexivity|].
    split; [exact Hag|]. repeat split.
Qed.

(** The inner loop over reads that end at end of file does to the sink
    and the carry what [processChunks] does with the data read. *)
Lemma run_reads_to_eof (fulls : list bytes) (last : bytes)
    (m : LogMonitor) (d : bool) :
  good (inStream_ m) = true ->
  exists M,
    run (AtInner d, m) (reads_to_eof fulls last) = Some (AtOuter, M)
    /\ agree M (processChunks m (fulls ++ [last]))
    /\ running_ M = running_ m
    /\ is_open (inStream_ M) = is_open (inStream_ m)
    /\ good (inStream_ M) = true.
Proof.
  unfold reads_to_eof.
  revert m d; induction fulls as [|data fulls IH]; intros m d Hgood;
    cbn [map app run step].
  - rewrite Hgood.
    destruct (readBody_eof m d last) as (M & -> & Ha & Hr & Ho & Hg).
    exists M. auto.
  - rewrite Hgood.
    destruct (readBody_full m d data Hgood)
      as (d' & M1 & -> & Ha1 & Hr1 & Ho1 & Hg1).
    destruct (IH M1 d' Hg1) as (M & Hrun & Ha & Hr & Ho & Hg).
    exists M. split; [exact Hrun|]. repeat split; try congruence.
    + destruct Ha as (Hc & _). rewrite Hc.
      apply (processChunks_agree (fulls ++ [last]) _ _ Ha1).
    + destruct Ha as (_ & Hout & _). rewrite Hout.
      apply (processChunks_agree (fulls ++ [last]) _ _ Ha1).
    + destruct Ha as (_ & _ & Hp). rewrite Hp.
      apply (processChunks_agree (fulls ++ [last]) _ _ Ha1).
Qed.

(** The reads of an unchanging file deliver its content, in order. *)
Lemma file_reads_content (fuel n : nat) (content : bytes) :
  1 <= n ->
  length content < fuel ->
  exists fulls last,
    file_reads fuel n content = reads_to_eof fulls last
    /\ List.concat (fulls ++ [last]) = content.
Proof.
  intros Hn. revert content; induction fuel as [|fuel IH]; intros content Hlen;
    [lia|].
  cbn [file_reads]. destruct (n <=? length content) eqn:E.
  - apply Nat.leb_le in E.
    destruct (IH (skipn n content)) as (fulls & last & Hr & Hc).
    { rewrite length_skipn. lia. }
    exists (firstn n content :: fulls), last. split.
    + unfold reads_to_eof in *. cbn [map app]. now rewrite Hr.
    + cbn [app List.concat]. rewrite Hc. apply firstn_skipn.
  - exists [], content. split; [reflexivity|].
    cbn. now rewrite app_nil_r.
Qed.

(** X11.  A run of [start] over a file of complete lines shorter than
    [MAX_LINE_LENGTH], with any buffer size of at least one byte, reaches
    the idle point of the loop with exactly the non-empty lines that
    contain a keyword in the sink, verbatim and in order, the carry empty,
    the input still open and the loop still running. *)
Theorem tailing_short_lines_filters_them
    (config : Config) (recs : list bytes)
    (Hsize : 1 <= bufferSize config)
    (Hfree : existsb has_NL recs = false)
    (Hshort : Forall (fun r => length r < MAX_LINE_LENGTH) recs) :
  exists M,
    tail_file (construct config) (join_NL recs) = Some M
    /\ outStream_ M = join_NL (selected (keywords config) recs)
    /\ partialLine_ M = []
    /\ is_open (inStream_ M) = true
    /\ running_ M = true.
Proof.
  unfold tail_file.
  destruct (file_reads_content (S (length (join_NL recs)))
              (bufferSize config) (join_NL recs) Hsize (Nat.lt_succ_diag_r _))
    as (fulls & last & Hreads & Hcat).
  cbn [construct config_]. rewrite Hreads.
  cbn [run start step construct with_running running_ inStream_ is_open
       andb negb open with_inStream lastPosition_ seekg].
  cbn [fail failbit badbit orb Z.ltb Z.compare is_open].
  match goal with
  | |- context [run (AtInner false, ?m0) _] => set (m0' := m0)
  end.
  destruct (run_reads_to_eof fulls last m0' false eq_refl)
    as (M & Hrun & Ha & Hr & Ho & Hg).
  rewrite Hrun. exists M. split; [reflexivity|].
  destruct (processChunks_below_cap m0' recs (fulls ++ [last])
              eq_refl Hfree Hshort Hcat) as [Hout Hcarry].
  destruct Ha as (_ & Hao & Hap).
  repeat split.
  - rewrite Hao, Hout. reflexivity.
  - now rewrite Hap.
  - now rewrite Ho.
  - now rewrite Hr.
Qed.

Lemma tailing_short_lines_filters_them_witness :
  exists M,
    tail_file (monitor_key12 7) scenario_input = Some M
    /\ outStream_ M
       = join_NL [bytes_of "alpha key1 beta"; bytes_of "key2 at start"].
Proof.
  assert (Hshort : Forall (fun r : bytes => length r < MAX_LINE_LENGTH)
                     [bytes_of "alpha key1 beta"; bytes_of "no match here";
                      bytes_of "key2 at start"])
    by (repeat constructor; vm_compute; lia).
  assert (Hsize : 1 <= 7) by lia.
  destruct (tailing_short_lines_filters_them
              (mkConfig "test_in.log" "test_out.log"
                 [bytes_of "key1"; bytes_of "key2"] 7 10)
              [bytes_of "alpha key1 beta"; bytes_of "no match here";
               bytes_of "key2 at start"]
              Hsize eq_refl Hshort)
    as (M & Ht & Ho & _).
  exists M. split; [exact Ht|]. rewrite Ho. reflexivity.
Defined.

(** ** Stopping *)

(** X12.  [stop()] is seen only at the test of the outer loop.  Called
    while the inner loop is reading, it does not end the reading: every
    buffer up to the next end of file is still read and processed, then
    [start()] returns; what is in the carry at that point is not written. *)
Theorem stop_takes_effect_at_end_of_file
    (m : LogMonitor) (d : bool) (fulls : list bytes) (last : bytes)
    (Hgood : good (inStream_ m) = true) :
  exists M,
    run (AtInner d, m) (EvStop :: reads_to_eof fulls last ++ [EvTau])
      = Some (Returned, M)
    /\ outStream_ M = outStream_ (processChunks m (fulls ++ [last]))
    /\ partialLine_ M = partialLine_ (processChunks m (fulls ++ [last]))
    /\ running_ M = false.
Proof.
  cbn [run step].
  destruct (run_reads_to_eof fulls last (stop m) d Hgood)
    as (M & Hrun & Ha & Hr & Ho & Hg).
  rewrite run_app, Hrun. cbn [run step].
  change (running_ (stop m)) with false in Hr. rewrite Hr.
  exists M. split; [reflexivity|].
  pose proof (processChunks_agree (fulls ++ [last]) (stop m) m
                (conj eq_refl (conj eq_refl eq_refl))) as Hs.
  destruct (agree_trans _ _ _ Ha Hs) as (_ & Hout & Hp).
  auto.
Qed.

Lemma stop_takes_effect_at_end_of_file_witness :
  exists M,
    run (AtInner false,
         with_inStream (with_running (monitor_key1 8) true)
           (mkIfstream true false false false 0))
        (EvStop :: reads_to_eof [bytes_of "key1 a" ++ [NL] ++ bytes_of "k"]
                                (bytes_of "ey1") ++ [EvTau])
      = Some (Returned, M)
    /\ outStream_ M = bytes_of "key1 a" ++ [NL]
    /\ partialLine_ M = bytes_of "key1".
Proof.
  destruct (stop_takes_effect_at_end_of_file
              (with_inStream (with_running (monitor_key1 8) true)
                 (mkIfstream true false false false 0))
              false [bytes_of "key1 a" ++ [NL] ++ bytes_of "k"]
              (bytes_of "ey1") eq_refl) as (M & Hrun & Ho & Hp & _).
  exists M. split; [exact Hrun|]. rewrite Ho, Hp. split; reflexivity.
Defined.

(** ** What a run does to the sink *)

Lemma step_sink (c c' : Control * LogMonitor) (e : Event) :
  step c e = Some c' ->
  config_ (snd c') = config_ (snd c) /\
  exists lines,
    outStream_ (snd c') =
    outStream_ (snd c) ++
    flat_map written (matched_lines (keywords (config_ (snd c))) lines).
Proof.
  destruct c as [ctl m]. cbn [snd step]. intros Hstep.
  assert (Hnone : config_ m = config_ m /\
            exists lines, outStream_ m = outStream_ m ++
              flat_map written (matched_lines (keywords (config_ m)) lines))
    by (split; [reflexivity | exists []; cbn; now rewrite app_nil_r]).
  assert (Hbody : forall d r,
    config_ (snd (readBody m d r)) = config_ m /\
    exists lines, outStream_ (snd (readBody m d r)) = outStream_ m ++
      flat_map written (matched_lines (keywords (config_ m)) lines)).
  { intros d r. unfold readBody.
    set (m1 := with_inStream m (read (inStream_ m) r)).
    destruct (0 <? length (read_data r)).
    - destruct (processBuffer_reconstruct m1 (read_data r)) as (Hc & _ & Ho).
      change (config_ m1) with (config_ m) in *.
      change (outStream_ m1) with (outStream_ m) in *.
      change (partialLine_ m1) with (partialLine_ m) in *.
      destruct (tellg (inStream_ (processBuffer m1 (read_data r))))
        as [pos s].
      cbn [with_lastPosition with_inStream inStream_].
      destruct (eof s); [|destruct (fail s && negb false)];
        cbn [snd with_lastPosition with_inStream with_partialLine config_
             outStream_];
        (split; [exact Hc | eexists; exact Ho]).
    - destruct (eof (inStream_ m1));
        [|destruct (fail (inStream_ m1) && negb false)];
        exact Hnone. }
  destruct ctl, e; try discriminate; cbn in Hstep;
    repeat match type of Hstep with
           | (if ?b then _ else _) = Some _ => destruct b
           | Some _ = Some _ => injection Hstep as <-
           | None = Some _ => discriminate
           end;
    try exact Hnone; try apply Hbody.
Qed.

Lemma run_sink (es : list Event) (c c' : Control * LogMonitor) :
  run c es = Some c' ->
  config_ (snd c') = config_ (snd c) /\
  exists lines,
    outStream_ (snd c') =
    outStream_ (snd c) ++
    flat_map written (matched_lines (keywords (config_ (snd c))) lines).
Proof.
  revert c; induction es as [|e es IH]; intros c; cbn [run].
  - intros [= <-]. split; [reflexivity|]. exists []. cbn.
    now rewrite app_nil_r.
  - destruct (step c e) as [c1|] eqn:E; [|discriminate]. intros Hrun.
    destruct (step_sink c c1 e E) as (Hc1 & l1 & Ho1).
    destruct (IH c1 Hrun) as (Hc & l2 & Ho).
    split; [congruence|]. exists (l1 ++ l2).
    rewrite Ho, Ho1, Hc1, flat_written_app, app_assoc. reflexivity.
Qed.

(** X13.  The loop only ever appends to the sink: after any run of
    [start], error recovery and stops included, the configuration is the
    one the object was built with and the sink begins with what it held
    before. *)
Theorem run_only_appends (c c' : Control * LogMonitor) (es : list Event)
    (Hrun : run c es = Some c') :
  config_ (snd c') = config_ (snd c)
  /\ exists added, outStream_ (snd c') = outStream_ (snd c) ++ added.
Proof.
  destruct (run_sink es c c' Hrun) as (Hc & lines & Ho).
  split; [exact Hc|]. eexists. exact Ho.
Qed.

Lemma run_only_appends_witness :
  exists c',
    run (start (monitor_key1 4))
        [EvOpen true; EvRead (ReadFull (bytes_of "key1"));
         EvRead (ReadBad []); EvOpen true; EvRead (ReadEof [NL])] = Some c'
    /\ config_ (snd c') = config_ (monitor_key1 4).
Proof.
  eexists. split; [vm_compute; reflexivity|].
  refine (proj1 (run_only_appends (start (monitor_key1 4)) _
                   [EvOpen true; EvRead (ReadFull (bytes_of "key1"));
                    EvRead (ReadBad []); EvOpen true; EvRead (ReadEof [NL])]
                   _)).
  vm_compute. reflexivity.
Defined.

Lemma matched_lines_no_keyword (lines : list bytes) :
  matched_lines [] lines = [].
Proof.
  unfold matched_lines, is_matched.
  induction lines as [|l lines IH]; [reflexivity|].
  cbn [filter matches]. now rewrite andb_false_r.
Qed.

(** X14.  An object built with an empty keyword list never writes: after
    any run of [start] the sink is what it was. *)
Theorem empty_keyword_list_writes_nothing
    (c c' : Control * LogMonitor) (es : list Event)
    (Hkws : keywords (config_ (snd c)) = [])
    (Hrun : run c es = Some c') :
  outStream_ (snd c') = outStream_ (snd c).
Proof.
  destruct (run_sink es c c' Hrun) as (_ & lines & Ho).
  rewrite Ho, Hkws, matched_lines_no_keyword. cbn. apply app_nil_r.
Qed.

Lemma empty_keyword_list_writes_nothing_witness :
  exists c',
    run (start (construct (mkConfig "in.log" "out.log" [] 8 10)))
        [EvOpen true; EvRead (ReadEof (bytes_of "any line" ++ [NL]))]
      = Some c'
    /\ outStream_ (snd c') = [].
Proof.
  eexists. split; [vm_compute; reflexivity|].
  refine (empty_keyword_list_writes_nothing
            (start (construct (mkConfig "in.log" "out.log" [] 8 10))) _
            [EvOpen true; EvRead (ReadEof (bytes_of "any line" ++ [NL]))]
            eq_refl _).
  vm_compute. reflexivity.
Defined.

(** ** Opening the input *)

Lemma readBody_reopens_at_zero (m : LogMonitor) (d : bool) (r : ReadResult) :
  is_open (inStream_ m) = true ->
  reopens_at_zero (readBody m d r).
Proof.
  intros Hopen. unfold readBody.
  set (m1 := with_inStream m (read (inStream_ m) r)).
  assert (Ho1 : is_open (inStream_ m1) = true)
    by (cbn [m1 with_inStream inStream_]; now destruct r).
  assert (Hfinal : forall m2 d2,
    is_open (inStream_ m2) = true ->
    reopens_at_zero
      (if eof (inStream_ m2)
       then (AtOuter, with_inStream m2 (clear (inStream_ m2)))
       else if fail (inStream_ m2) && negb (eof (inStream_ m2))
            then (AtOuter,
                  with_partialLine
                    (with_lastPosition
                       (with_inStream m2 (close (inStream_ m2))) 0) [])
            else (AtInner d2, m2))).
  { intros m2 d2 Ho2.
    destruct (eof (inStream_ m2)); [|destruct (fail _ && negb false)];
      split; cbn [fst snd with_inStream with_lastPosition with_partialLine
                  inStream_ lastPosition_ clear close is_open];
      try congruence; try discriminate; auto. }
  destruct (0 <? length (read_data r)).
  - destruct (processBuffer_frame m1 (read_data r)) as (Hi & _ & _).
    unfold tellg. rewrite Hi.
    destruct (good (inStream_ m1)); apply Hfinal;
      cbn [with_lastPosition with_inStream inStream_ is_open]; exact Ho1.
  - apply Hfinal. exact Ho1.
Qed.

Lemma step_reopens_at_zero (c c' : Control * LogMonitor) (e : Event) :
  step c e = Some c' -> reopens_at_zero c -> reopens_at_zero c'.
Proof.
  destruct c as [ctl m]. unfold reopens_at_zero at 1. cbn [fst snd step].
  intros Hstep [Hclosed Hinner].
  destruct ctl as [|d|]; [| |discriminate].
  - destruct e as [ok|r| |].
    + destruct (running_ m && negb (is_open (inStream_ m))) eqn:E;
        [|discriminate].
      apply andb_true_iff in E as [_ E]. apply negb_true_iff in E.
      destruct ok; cbn [open with_inStream inStream_ is_open] in Hstep.
      * injection Hstep as <-.
        split;
          cbn [fst snd with_inStream inStream_ lastPosition_ seekg is_open
               fail failbit badbit orb];
          destruct (lastPosition_ m <? 0)%Z; cbn [is_open];
          try discriminate; auto.
      * rewrite E in Hstep. injection Hstep as <-.
        split; cbn [fst snd with_inStream inStream_ is_open lastPosition_];
          [intros _; now apply Hclosed | discriminate].
    + discriminate.
    + injection Hstep as <-. split; cbn [fst snd stop with_running inStream_
        lastPosition_]; [exact Hclosed | discriminate].
    + destruct (running_ m).
      * destruct (is_open (inStream_ m)) eqn:E; [|discriminate].
        injection Hstep as <-. split; cbn [fst snd]; [congruence | auto].
      * injection Hstep as <-. split; cbn [fst snd];
          [exact Hclosed | discriminate].
  - pose proof (Hinner d eq_refl) as Hopen.
    destruct e as [ok|r| |].
    + discriminate.
    + destruct (good (inStream_ m)); [|discriminate].
      injection Hstep as <-. now apply readBody_reopens_at_zero.
    + injection Hstep as <-. split; cbn [fst snd stop with_running inStream_
        lastPosition_]; [congruence | intros _ _; exact Hopen].
    + destruct (good (inStream_ m)); [discriminate|].
      injection Hstep as <-. split; cbn [fst snd];
        [congruence | discriminate].
Qed.

Lemma run_reopens_at_zero (es : list Event) (c c' : Control * LogMonitor) :
  run c es = Some c' -> reopens_at_zero c -> reopens_at_zero c'.
Proof.
  revert c; induction es as [|e es IH]; intros c; cbn [run].
  - now intros [= <-].
  - destruct (step c e) as [c1|] eqn:E; [|discriminate].
    intros Hrun H. apply (IH c1 Hrun).
    exact (step_reopens_at_zero c c1 e E H).
Qed.

(** X15.  Every time [start] opens the input it starts at offset zero.
    In any run of a new object, whenever the input is closed
    [lastPosition_] is zero, so a successful [open] is followed by
    [seekg(0)] and leaves a good stream at the beginning of the file: the
    first open and the re-open after a read error both rescan the file
    from its first byte. *)
Theorem every_open_starts_at_offset_zero
    (config : Config) (es : list Event) (c' c'' : Control * LogMonitor)
    (Hrun : run (start (construct config)) es = Some c')
    (Hopen : step c' (EvOpen true) = Some c'') :
  lastPosition_ (snd c') = 0%Z
  /\ fst c'' = AtInner false
  /\ is_open (inStream_ (snd c'')) = true
  /\ good (inStream_ (snd c'')) = true
  /\ gpos (inStream_ (snd c'')) = 0%Z.
Proof.
  assert (Hinit : reopens_at_zero (start (construct config)))
    by (split; [reflexivity | discriminate]).
  destruct (run_reopens_at_zero es _ c' Hrun Hinit) as [Hclosed _].
  destruct c' as [ctl m]. cbn [fst snd step] in *.
  destruct ctl; try discriminate.
  destruct (running_ m && negb (is_open (inStream_ m))) eqn:E;
    [|discriminate].
  apply andb_true_iff in E as [_ E]. apply negb_true_iff in E.
  specialize (Hclosed E).
  cbn [open with_inStream inStream_ is_open lastPosition_] in Hopen.
  rewrite Hclosed in Hopen. injection Hopen as <-.
  cbn. auto.
Qed.

Lemma every_open_starts_at_offset_zero_witness :
  exists c' c'',
    run (start (monitor_key1 4))
        [EvOpen true; EvRead (ReadFull (bytes_of "key1"));
         EvRead (ReadEof (bytes_of "ab")); EvTau; EvRead (ReadBad [])]
      = Some c'
    /\ step c' (EvOpen true) = Some c''
    /\ gpos (inStream_ (snd c'')) = 0%Z.
Proof.
  eexists. eexists.
  split; [vm_compute; reflexivity|]. split; [vm_compute; reflexivity|].
  refine (proj2 (proj2 (proj2 (proj2
            (every_open_starts_at_offset_zero
               (mkConfig "test_in.log" "test_out.log" [bytes_of "key1"] 4 10)
               [EvOpen true; EvRead (ReadFull (bytes_of "key1"));
                EvRead (ReadEof (bytes_of "ab")); EvTau; EvRead (ReadBad [])]
               _ _ _ _))))).
  - vm_compute. reflexivity.
  - vm_compute. reflexivity.
Defined.

(** ** Recovery from a read error *)

Lemma readBody_bad_empty (m : LogMonitor) (d : bool) :
  good (inStream_ m) = true ->
  exists M,
    readBody m d (ReadBad []) = (AtOuter, M)
    /\ config_ M = config_ m
    /\ outStream_ M = outStream_ m
    /\ partialLine_ M = []
    /\ lastPosition_ M = 0%Z
    /\ is_open (inStream_ M) = false
    /\ running_ M = running_ m.
Proof.
  intros Hgood. unfold readBody. cbn [read_data Datatypes.length Nat.ltb Nat.leb].
  assert (He : eofbit (inStream_ m) = false).
  { unfold good in Hgood. destruct (eofbit (inStream_ m)); [|reflexivity].
    discriminate. }
  cbn [with_inStream inStream_ read eof eofbit].
  rewrite He. unfold fail. cbn [failbit badbit].
  rewrite orb_true_r. cbn [negb andb].
  eexists. split; [reflexivity|]. cbn. repeat split.
Qed.

(** X16.  Recovery from a read error starts over and writes again.  When
    a file of complete lines shorter than [MAX_LINE_LENGTH] has been read
    to its end, a later read fails, and the file is opened and read again,
    the sink holds the selected lines twice: nothing remembers what was
    already written. *)
Theorem read_error_recovery_writes_again
    (config : Config) (recs : list bytes)
    (Hsize : 1 <= bufferSize config)
    (Hfree : existsb has_NL recs = false)
    (Hshort : Forall (fun r => length r < MAX_LINE_LENGTH) recs) :
  let reads :=
    file_reads (S (length (join_NL recs))) (bufferSize config)
               (join_NL recs) in
  exists M,
    run (start (construct config))
        ((EvOpen true :: reads)
           ++ [EvTau; EvRead (ReadBad []); EvOpen true] ++ reads)
      = Some (AtOuter, M)
    /\ outStream_ M =
       join_NL (selected (keywords config) recs)
       ++ join_NL (selected (keywords config) recs).
Proof.
  cbv zeta.
  destruct (file_reads_content (S (length (join_NL recs)))
              (bufferSize config) (join_NL recs) Hsize (Nat.lt_succ_diag_r _))
    as (fulls & last & Hreads & Hcat).
  rewrite Hreads, run_app.
  (* first pass *)
  cbn [run start step construct with_running running_ inStream_ is_open
       andb negb open with_inStream lastPosition_ seekg].
  cbn [fail failbit badbit orb Z.ltb Z.compare is_open].
  match goal with
  | |- context [run (AtInner false, ?m0) (reads_to_eof _ _)] => set (m0' := m0)
  end.
  destruct (run_reads_to_eof fulls last m0' false eq_refl)
    as (M1 & Hrun1 & Ha1 & Hr1 & Ho1 & Hg1).
  rewrite Hrun1.
  destruct (processChunks_below_cap m0' recs (fulls ++ [last])
              eq_refl Hfree Hshort Hcat) as [Hout1 Hcarry1].
  destruct Ha1 as (Hc1 & Hao1 & Hap1).
  assert (Hcfg1 : config_ M1 = config).
  { rewrite Hc1.
    destruct (processChunks_emitted (fulls ++ [last]) m0') as [Hc _].
    rewrite Hc. reflexivity. }
  change (running_ m0') with true in Hr1.
  change (is_open (inStream_ m0')) with true in Ho1.
  (* the read error and the second open *)
  cbn [app run step]. rewrite Hr1, Ho1. cbn [step]. rewrite Hg1.
  destruct (readBody_bad_empty M1 false Hg1)
    as (M2 & -> & Hc2 & Hout2 & Hp2 & Hl2 & Hop2 & Hrn2).
  cbn [step]. rewrite Hrn2, Hr1, Hop2. cbn [andb negb open with_inStream
    inStream_ is_open lastPosition_]. rewrite Hl2.
  cbn [seekg fail failbit badbit orb Z.ltb Z.compare is_open].
  match goal with
  | |- context [run (AtInner false, ?m3) (reads_to_eof _ _)] => set (m3' := m3)
  end.
  (* second pass *)
  destruct (run_reads_to_eof fulls last m3' false eq_refl)
    as (M & Hrun & Ha & _).
  rewrite Hrun. exists M. split; [reflexivity|].
  destruct (processChunks_below_cap m3' recs (fulls ++ [last])
              Hp2 Hfree Hshort Hcat) as [Hout3 _].
  destruct Ha as (_ & Hao & _).
  rewrite Hao, Hout3.
  change (outStream_ m3') with (outStream_ M2).
  change (config_ m3') with (config_ M2).
  rewrite Hout2, Hc2, Hcfg1, Hao1, Hout1. reflexivity.
Qed.

Lemma read_error_recovery_writes_again_witness :
  exists M,
    run (start (monitor_key1 6))
        ([EvOpen true; EvRead (ReadFull (bytes_of "key1 a"));
          EvRead (ReadEof [NL])]
         ++ [EvTau; EvRead (ReadBad []); EvOpen true]
         ++ [EvRead (ReadFull (bytes_of "key1 a")); EvRead (ReadEof [NL])])
      = Some (AtOuter, M)
    /\ outStream_ M = bytes_of "key1 a" ++ [NL] ++ bytes_of "key1 a" ++ [NL].
Proof.
  assert (Hshort : Forall (fun r : bytes => length r < MAX_LINE_LENGTH)
                     [bytes_of "key1 a"])
    by (repeat constructor; vm_compute; lia).
  assert (Hsize : 1 <= 6) by lia.
  destruct (read_error_recovery_writes_again
              (mkConfig "test_in.log" "test_out.log" [bytes_of "key1"] 6 10)
              [bytes_of "key1 a"] Hsize eq_refl Hshort) as (M & Hrun & Ho).
  exists M. split; [exact Hrun|]. rewrite Ho. reflexivity.
Defined.

(** ** The counters *)

Lemma incr64_add64 (x : Z) (k : nat) : incr64 (add64 x k) = add64 x (k + 1).
Proof.
  unfold incr64, add64. rewrite Zplus_mod_idemp_l. f_equal. lia.
Qed.

Lemma add64_zero (x : Z) : (0 <= x < 2 ^ 64)%Z -> add64 x 0 = x.
Proof.
  intros H. unfold add64. rewrite Z.add_0_r. now apply Z.mod_small.
Qed.

Lemma too_long_not_empty (l : bytes) :
  (MAX_LINE_LENGTH <? length l) = true -> is_empty l = false.
Proof.
  intros H. apply Nat.ltb_lt in H. destruct l; [cbn in H; lia | reflexivity].
Qed.

Lemma processLines_stats (lines : list bytes) (m : LogMonitor)
    (lp lm br ld : Z) (a b c : nat) :
  stats_ m = mkStatistics (add64 lp a) (add64 lm b) br (add64 ld c) ->
  stats_ (processLines m lines) =
  mkStatistics
    (add64 lp (a + count_nonempty lines))
    (add64 lm (b + length (matched_lines (keywords (config_ m)) lines)))
    br
    (add64 ld (c + count_long lines)).
Proof.
  unfold processLines, count_nonempty, count_long, matched_lines.
  revert m a b c; induction lines as [|l lines IH]; intros m a b c Hst;
    cbn [fold_left filter Datatypes.length].
  - now rewrite !Nat.add_0_r.
  - pose proof (processLine_stats m l) as Hl. rewrite Hst in Hl.
    cbn [linesProcessed linesMatched bytesRead longLinesDiscarded] in Hl.
    pose proof (processLine_config m l) as Hc.
    destruct (is_empty l) eqn:El.
    + assert (Hm : is_matched (keywords (config_ m)) l = false)
        by (unfold is_matched; now rewrite El).
      assert (Hlong : (MAX_LINE_LENGTH <? length l) = false).
      { destruct (MAX_LINE_LENGTH <? length l) eqn:E; [|reflexivity].
        apply too_long_not_empty in E. congruence. }
      rewrite Hm, Hlong. cbn [negb].
      rewrite (IH (processLine m l) a b c Hl), Hc. reflexivity.
    + cbn [negb Datatypes.length].
      destruct (is_matched (keywords (config_ m)) l) eqn:Em,
               (MAX_LINE_LENGTH <? length l) eqn:Elong;
        rewrite ?incr64_add64 in Hl; cbn [Datatypes.length];
        rewrite (IH (processLine m l) _ _ _ Hl), Hc;
        f_equal; f_equal; lia.
Qed.

(** X17.  The counters after one buffer of complete lines, read from an
    empty carry: [linesProcessed] grows by the number of non-empty lines,
    [linesMatched] by the number of lines written, [longLinesDiscarded] by
    the number of lines longer than [MAX_LINE_LENGTH], each counted once,
    and [bytesRead] by the size of the buffer, all modulo [2^64]. *)
Theorem counters_after_complete_lines (m : LogMonitor) (recs : list bytes)
    (Hcarry : partialLine_ m = [])
    (Hfree : existsb has_NL recs = false)
    (Hrange : stats_in_range (stats_ m)) :
  stats_ (processBuffer m (join_NL recs)) =
  mkStatistics
    (add64 (linesProcessed (stats_ m)) (count_nonempty recs))
    (add64 (linesMatched (stats_ m))
           (length (matched_lines (keywords (config_ m)) recs)))
    (add64 (bytesRead (stats_ m)) (length (join_NL recs)))
    (add64 (longLinesDiscarded (stats_ m)) (count_long recs)).
Proof.
  destruct Hrange as (Hlp & Hlm & _ & Hld).
  rewrite (processBuffer_complete_records m recs Hcarry Hfree).
  apply (processLines_stats recs (add_bytes m (length (join_NL recs)))
           _ _ _ _ 0 0 0).
  unfold add_bytes, add_bytesRead. cbn [with_stats stats_].
  now rewrite !add64_zero.
Qed.

Lemma counters_after_complete_lines_witness :
  stats_ (processBuffer (monitor_key1 DEFAULT_BUFFER_SIZE)
            (join_NL [bytes_of "first key1"; []; bytes_of "second";
                      long_part1 ++ long_part2]))
  = mkStatistics 3 2 10020 1.
Proof.
  assert (Hrange : stats_in_range
                     (stats_ (monitor_key1 DEFAULT_BUFFER_SIZE)))
    by (repeat split; cbn; lia).
  rewrite (counters_after_complete_lines
             (monitor_key1 DEFAULT_BUFFER_SIZE)
             [bytes_of "first key1"; []; bytes_of "second";
              long_part1 ++ long_part2] eq_refl eq_refl Hrange).
  vm_compute. reflexivity.
Defined.

Lemma incr64_small (x : Z) :
  (0 <= x)%Z -> (x + 1 < 2 ^ 64)%Z -> incr64 x = (x + 1)%Z.
Proof. intros H0 H1. unfold incr64. apply Z.mod_small. lia. Qed.

Lemma add64_small (x : Z) (n : nat) :
  (0 <= x)%Z -> (x + Z.of_nat n < 2 ^ 64)%Z -> add64 x n = (x + Z.of_nat n)%Z.
Proof. intros H0 H1. unfold add64. apply Z.mod_small. lia. Qed.

(** One line: the counters keep their order, [linesProcessed] grows by at
    most one, and [longLinesDiscarded] moves only for a line longer than
    the cap. *)
Lemma processLine_ordered (m : LogMonitor) (line : bytes) (K : Z) :
  (0 <= linesMatched (stats_ m) <= linesProcessed (stats_ m))%Z ->
  (0 <= longLinesDiscarded (stats_ m) <= linesProcessed (stats_ m))%Z ->
  (linesProcessed (stats_ m) <= K)%Z ->
  (K + 1 < 2 ^ 64)%Z ->
  let st' := stats_ (processLine m line) in
  bytesRead st' = bytesRead (stats_ m)
  /\ (0 <= linesMatched st' <= linesProcessed st')%Z
  /\ (0 <= longLinesDiscarded st' <= linesProcessed st')%Z
  /\ (linesProcessed st' <= K + 1)%Z
  /\ ((MAX_LINE_LENGTH <? length line) = false ->
      is_empty line = false ->
      (longLinesDiscarded st' + 1 <= linesProcessed st')%Z).
Proof.
  intros Hm Hd Hk Hlim. cbv zeta. rewrite processLine_stats.
  destruct (is_empty line); [repeat split; try lia; discriminate|].
  cbn [linesProcessed linesMatched bytesRead longLinesDiscarded].
  rewrite (incr64_small (linesProcessed (stats_ m))) by lia.
  destruct (is_matched _ line), (MAX_LINE_LENGTH <? length line);
    rewrite ?incr64_small by lia;
    repeat split; try lia; discriminate.
Qed.

Lemma processLines_ordered (lines : list bytes) (m : LogMonitor) (K : Z) :
  (0 <= linesMatched (stats_ m) <= linesProcessed (stats_ m))%Z ->
  (0 <= longLinesDiscarded (stats_ m) <= linesProcessed (stats_ m))%Z ->
  (linesProcessed (stats_ m) <= K)%Z ->
  (K + Z.of_nat (length lines) < 2 ^ 64)%Z ->
  let st' := stats_ (processLines m lines) in
  bytesRead st' = bytesRead (stats_ m)
  /\ (0 <= linesMatched st' <= linesProcessed st')%Z
  /\ (0 <= longLinesDiscarded st' <= linesProcessed st')%Z
  /\ (linesProcessed st' <= K + Z.of_nat (length lines))%Z.
Proof.
  unfold processLines.
  revert m K; induction lines as [|l lines IH]; intros m K Hm Hd Hk Hlim;
    cbn [fold_left Datatypes.length] in *.
  - repeat split; lia.
  - destruct (processLine_ordered m l K Hm Hd Hk) as (Hb & Hm1 & Hd1 & Hk1 & _);
      [lia|].
    destruct (IH (processLine m l) (K + 1)%Z Hm1 Hd1 Hk1) as (Hb2 & H2);
      [lia|].
    cbv zeta. rewrite Hb2, Hb. split; [reflexivity|].
    replace (K + Z.of_nat (S (length lines)))%Z
      with (K + 1 + Z.of_nat (length lines))%Z by lia.
    exact H2.
Qed.

Lemma split_NL_count (buf : bytes) :
  length (fst (split_NL buf)) + length (snd (split_NL buf)) <= length buf.
Proof.
  induction buf as [|c buf IH]; cbn [split_NL]; [cbn; lia|].
  destruct (split_NL buf) as [segs tail]. cbn [fst snd] in IH.
  destruct (Byte.eqb c NL); [cbn; lia|].
  destruct segs; cbn in *; lia.
Qed.

Lemma stitched_length (carry : bytes) (segs : list bytes) :
  length (stitched carry segs) = length segs.
Proof. now destruct segs. Qed.

Lemma tail_overflows_not_empty (c t : bytes) :
  tail_overflows c t = true -> 1 <= length t.
Proof.
  unfold tail_overflows. destruct t; [discriminate | cbn; lia].
Qed.

Lemma processBuffer_ordered (m : LogMonitor) (buf : bytes) (B : Z) :
  length (partialLine_ m) < MAX_LINE_LENGTH ->
  counters_ordered B (stats_ m) ->
  (B + Z.of_nat (length buf) < 2 ^ 64)%Z ->
  counters_ordered (B + Z.of_nat (length buf)) (stats_ (processBuffer m buf)).
Proof.
  intros Hcarry (Hb & Hm & Hd & Hk) Hlim.
  rewrite processBuffer_functional, overflows_eq, reconstruct_eq. cbv zeta.
  pose proof (split_NL_count buf) as Hcount.
  set (segs := fst (split_NL buf)) in *.
  set (tail := snd (split_NL buf)) in *.
  set (m0 := add_bytes m (length buf)).
  assert (Hb0 : bytesRead (stats_ m0) = (B + Z.of_nat (length buf))%Z).
  { cbn [m0 add_bytes add_bytesRead with_stats stats_ bytesRead].
    rewrite Hb. apply add64_small; lia. }
  assert (Hc1 : length (carry_after (partialLine_ m) segs) < MAX_LINE_LENGTH).
  { unfold carry_after. destruct segs; [exact Hcarry|].
    exact MAX_LINE_LENGTH_pos. }
  unfold finish_tail.
  destruct (tail_overflows (carry_after (partialLine_ m) segs) tail) eqn:Eo;
    cbn [fst snd].
  - pose proof (tail_overflows_not_empty _ _ Eo) as Ht.
    set (L := carry_after (partialLine_ m) segs ++
              firstn (MAX_LINE_LENGTH
                      - length (carry_after (partialLine_ m) segs)) tail).
    assert (HL : length L = MAX_LINE_LENGTH).
    { apply overflow_count_in_range; [exact Hc1|].
      unfold tail_overflows in Eo. apply andb_true_iff in Eo as [_ Eo].
      now apply Nat.leb_le in Eo. }
    rewrite processLines_app.
    set (P := processLines m0 (stitched (partialLine_ m) segs)).
    destruct (processLines_ordered (stitched (partialLine_ m) segs) m0 B)
      as (Hb1 & Hm1 & Hd1 & Hk1); try assumption.
    { rewrite stitched_length. lia. }
    rewrite stitched_length in Hk1. fold P in Hb1, Hm1, Hd1, Hk1.
    unfold processLines at 1. cbn [fold_left].
    destruct (processLine_ordered P L (B + Z.of_nat (length segs))%Z)
      as (Hb2 & Hm2 & Hd2 & Hk2 & Hdisc); try assumption; [lia|].
    assert (Hstrict : (longLinesDiscarded (stats_ (processLine P L)) + 1
                       <= linesProcessed (stats_ (processLine P L)))%Z).
    { apply Hdisc.
      - apply Nat.ltb_ge. lia.
      - pose proof MAX_LINE_LENGTH_pos.
        destruct L; [cbn in HL; lia | reflexivity]. }
    cbn [count_discarded with_partialLine with_stats stats_].
    unfold counters_ordered, incr_longLinesDiscarded.
    cbn [bytesRead linesMatched linesProcessed longLinesDiscarded].
    rewrite incr64_small by lia.
    rewrite Hb2, Hb1, Hb0. repeat split; lia.
  - cbn [with_partialLine stats_].
    destruct (processLines_ordered (stitched (partialLine_ m) segs) m0 B)
      as (Hb1 & Hm1 & Hd1 & Hk1); try assumption.
    { rewrite stitched_length. lia. }
    rewrite stitched_length in Hk1.
    unfold counters_ordered. rewrite Hb1, Hb0. repeat split; lia.
Qed.

Lemma processChunks_ordered (chunks : list bytes) (m : LogMonitor) (B : Z) :
  length (partialLine_ m) < MAX_LINE_LENGTH ->
  counters_ordered B (stats_ m) ->
  (B + Z.of_nat (length (List.concat chunks)) < 2 ^ 64)%Z ->
  counters_ordered (B + Z.of_nat (length (List.concat chunks)))
                   (stats_ (processChunks m chunks)).
Proof.
  unfold processChunks.
  revert m B; induction chunks as [|buf chunks IH]; intros m B Hcarry Hord Hlim;
    cbn [fold_left List.concat Datatypes.length] in *.
  - now rewrite Z.add_0_r.
  - rewrite length_app, Nat2Z.inj_add, Z.add_assoc in *.
    apply IH.
    + now apply processBuffer_carry_bound.
    + apply processBuffer_ordered; [assumption | assumption | lia].
    + exact Hlim.
Qed.

(** X18.  While fewer than [2^64] bytes have been read by a new object,
    the counters are exact and ordered: [bytesRead] is the number of bytes
    handed to [processBuffer], and
    [linesMatched <= linesProcessed <= bytesRead] and
    [longLinesDiscarded <= linesProcessed]. *)
Theorem counters_stay_ordered (config : Config) (chunks : list bytes)
    (Hlim : (Z.of_nat (length (List.concat chunks)) < 2 ^ 64)%Z) :
  let st := stats_ (processChunks (construct config) chunks) in
  bytesRead st = Z.of_nat (length (List.concat chunks))
  /\ (0 <= linesMatched st <= linesProcessed st)%Z
  /\ (0 <= longLinesDiscarded st <= linesProcessed st)%Z
  /\ (linesProcessed st <= bytesRead st)%Z.
Proof.
  pose proof (processChunks_ordered chunks (construct config) 0
                MAX_LINE_LENGTH_pos) as H.
  rewrite Z.add_0_l in H.
  destruct H as (Hb & Hm & Hd & Hk); [|exact Hlim|].
  - unfold counters_ordered. cbn. lia.
  - cbv zeta. rewrite Hb. auto.
Qed.

Lemma counters_stay_ordered_witness :
  let st := stats_ (processChunks (monitor_key1 MAX_LINE_LENGTH)
                      [long_part1; long_part2; long_part3]) in
  (linesMatched st <= linesProcessed st)%Z
  /\ (longLinesDiscarded st <= linesProcessed st)%Z
  /\ (linesProcessed st <= bytesRead st)%Z.
Proof.
  assert (Hlim : (Z.of_nat (length (List.concat
                    [long_part1; long_part2; long_part3])) < 2 ^ 64)%Z)
    by (vm_compute; reflexivity).
  destruct (counters_stay_ordered
              (mkConfig "test_in.log" "test_out.log" [bytes_of "key1"]
                 MAX_LINE_LENGTH 10)
              [long_part1; long_part2; long_part3] Hlim)
    as (_ & Hm & Hd & Hk).
  cbv zeta. repeat split; [apply Hm | apply Hd | apply Hk].
Defined.

(** ** The overflow branch *)

(** X19.  Unterminated data that brings the carry to the cap is cut
    there: the first [MAX_LINE_LENGTH] bytes of carry and buffer are
    handed to [processLine] as a line, the rest of the buffer is dropped,
    the carry is left empty and [longLinesDiscarded] is incremented; the
    object never holds more than [MAX_LINE_LENGTH] bytes of a line. *)
Theorem overflow_cuts_at_the_cap (m : LogMonitor) (buf : bytes)
    (Hfree : has_NL buf = false)
    (Hcarry : length (partialLine_ m) < MAX_LINE_LENGTH)
    (Hfull : MAX_LINE_LENGTH <= length (partialLine_ m) + length buf) :
  processBuffer m buf =
  count_discarded
    (with_partialLine
       (processLine (add_bytes m (length buf))
          (firstn MAX_LINE_LENGTH (partialLine_ m ++ buf)))
       [])
  /\ length (firstn MAX_LINE_LENGTH (partialLine_ m ++ buf)) = MAX_LINE_LENGTH.
Proof.
  split.
  - rewrite processBuffer_functional, overflows_eq, reconstruct_eq.
    rewrite (split_NL_no_NL buf Hfree). cbn [fst snd stitched carry_after].
    unfold finish_tail.
    assert (Ho : tail_overflows (partialLine_ m) buf = true).
    { unfold tail_overflows. apply andb_true_iff. split.
      - destruct buf; [cbn in Hfull; lia | reflexivity].
      - now apply Nat.leb_le. }
    rewrite Ho. cbn [fst snd app].
    rewrite firstn_app, (firstn_all2 (partialLine_ m)) by lia.
    reflexivity.
  - rewrite length_firstn, length_app. lia.
Qed.

Lemma overflow_cuts_at_the_cap_witness :
  partialLine_ (processBuffer (monitor_key1 MAX_LINE_LENGTH) filler) = []
  /\ longLinesDiscarded
       (stats_ (processBuffer (monitor_key1 MAX_LINE_LENGTH) filler)) = 1%Z.
Proof.
  assert (Hcarry : length (partialLine_ (monitor_key1 MAX_LINE_LENGTH))
                   < MAX_LINE_LENGTH) by exact MAX_LINE_LENGTH_pos.
  assert (Hfull : MAX_LINE_LENGTH
                  <= length (partialLine_ (monitor_key1 MAX_LINE_LENGTH))
                     + length filler)
    by (unfold filler; rewrite repeat_length; cbn; lia).
  assert (Hfree : has_NL filler = false) by (vm_compute; reflexivity).
  destruct (overflow_cuts_at_the_cap (monitor_key1 MAX_LINE_LENGTH) filler
              Hfree Hcarry Hfull) as [-> _].
  split; [reflexivity | vm_compute; reflexivity].
Defined.

(** ** The generator's long lines *)

Lemma MAX_LINE_LENGTH_value : Z.of_nat MAX_LINE_LENGTH = 5000%Z.
Proof. vm_compute. reflexivity. Qed.

Lemma has_NL_repeat_X (n : nat) : has_NL (repeat "X"%byte n) = false.
Proof. induction n as [|n IH]; [reflexivity | exact IH]. Qed.

Lemma occurs_in_firstn (n : nat) (p kw q : bytes) :
  length p + length kw <= n ->
  occurs_in kw (firstn n (p ++ kw ++ q)).
Proof.
  intros H. exists p, (firstn (n - length p - length kw) q).
  rewrite firstn_app, (firstn_all2 p) by lia.
  rewrite firstn_app, (firstn_all2 kw) by lia.
  reflexivity.
Qed.

(** X20.  The long lines of the log generator are matched and cut.  For
    any timestamp without ['\n'] that leaves room for the keyword below
    the cap, a monitor with the keyword [key1] and an empty carry that
    reads one long line of the generator in one buffer writes exactly its
    first [MAX_LINE_LENGTH] bytes and a terminator, and leaves the carry
    empty. *)
Theorem generator_long_line_is_cut (m : LogMonitor) (timestamp : bytes)
    (Hcarry : partialLine_ m = [])
    (Hts : has_NL timestamp = false)
    (Hroom : length timestamp + 7 <= MAX_LINE_LENGTH)
    (Hkey : In (bytes_of "key1") (keywords (config_ m))) :
  outStream_ (processBuffer m (generateLongLog timestamp)) =
    outStream_ m ++ firstn MAX_LINE_LENGTH (longLogLine timestamp) ++ [NL]
  /\ length (firstn MAX_LINE_LENGTH (longLogLine timestamp)) = MAX_LINE_LENGTH
  /\ partialLine_ (processBuffer m (generateLongLog timestamp)) = [].
Proof.
  assert (Hfree : existsb has_NL [longLogLine timestamp] = false).
  { cbn [existsb]. unfold longLogLine.
    rewrite !has_NL_app, Hts, has_NL_repeat_X. reflexivity. }
  assert (Hjoin : generateLongLog timestamp = join_NL [longLogLine timestamp])
    by (unfold generateLongLog, join_NL; cbn [flat_map]; now rewrite app_nil_r).
  assert (Hlen : MAX_LINE_LENGTH <= length (longLogLine timestamp)).
  { unfold longLogLine. rewrite !length_app, repeat_length.
    pose proof MAX_LINE_LENGTH_value. lia. }
  assert (Hm : is_matched (keywords (config_ m)) (longLogLine timestamp)
               = true).
  { unfold is_matched. apply andb_true_iff. split; [reflexivity|].
    apply matches_spec. exists (bytes_of "key1"). split; [exact Hkey|].
    unfold longLogLine.
    replace (bytes_of "[" ++ timestamp
             ++ bytes_of "] key1 MARKET_DATA_SNAPSHOT "
             ++ repeat "X"%byte (Z.to_nat 15000))
      with ((bytes_of "[" ++ timestamp ++ bytes_of "] ")
            ++ bytes_of "key1"
            ++ (bytes_of " MARKET_DATA_SNAPSHOT "
                ++ repeat "X"%byte (Z.to_nat 15000)))
      by (rewrite <- !app_assoc; reflexivity).
    apply occurs_in_firstn.
    rewrite !length_app. cbn [bytes_of list_byte_of_string Datatypes.length].
    cbn. lia. }
  rewrite Hjoin, (processBuffer_complete_records m _ Hcarry Hfree).
  destruct (processLines_facts [longLogLine timestamp]
              (add_bytes m (length (join_NL [longLogLine timestamp]))))
    as (_ & Hp & Ho).
  rewrite Hp, Ho. cbn [add_bytes with_stats outStream_ config_ partialLine_].
  rewrite flat_written_cons. unfold line_output. rewrite Hm.
  cbn [matched_lines filter flat_map]. rewrite app_nil_r.
  repeat split; [|exact Hcarry].
  rewrite length_firstn. lia.
Qed.

Lemma generator_long_line_is_cut_witness :
  length
    (outStream_
       (processBuffer (monitor_key1 DEFAULT_BUFFER_SIZE)
          (generateLongLog (bytes_of "2025-10-16 09:30:00.000123"))))
  = S MAX_LINE_LENGTH.
Proof.
  assert (Hroom : length (bytes_of "2025-10-16 09:30:00.000123") + 7
                  <= MAX_LINE_LENGTH) by (vm_compute; lia).
  assert (Hkey : In (bytes_of "key1")
                   (keywords (config_ (monitor_key1 DEFAULT_BUFFER_SIZE))))
    by (left; reflexivity).
  destruct (generator_long_line_is_cut (monitor_key1 DEFAULT_BUFFER_SIZE)
              (bytes_of "2025-10-16 09:30:00.000123")
              eq_refl eq_refl Hroom Hkey) as (Ho & Hl & _).
  rewrite Ho. cbn [monitor_key1 construct outStream_ app].
  rewrite length_app, Hl. cbn [Datatypes.length]. lia.
Defined.
